(** * stock-ai-briefs: the acquisition, cache, fallback and metrics pipeline

    A shallow embedding of [main.py] and the properties of its price
    pipeline: [calculate_metrics], [create_sample_data],
    [fetch_yfinance_with_retry], [get_prices] and [generate_summary].

    Modelling conventions.
    - Numbers.  Prices and metrics are exact rationals ([Q]); binary64
      rounding is not modelled.  numpy does not raise on a division by zero:
      it yields [inf] or [nan] and a RuntimeWarning.  A value of type [num] is
      therefore [Some q] for a number, or [None] for a value that was computed
      through a division by zero.
    - Dates.  A date is the number of its day ([Z]), counted from
      1970-01-01; the text form [%Y-%m-%d] that the program stores orders
      the same way (for the four-digit years).  [datetime] holds the days
      from 0001-01-01 on only: its arithmetic raises [OverflowError] below
      that day, which is [None] here.
    - Clock.  A request reads the clock once ([Clock]): the seconds of
      [time.time()], the local day of [datetime.now()] and the UTC day of
      SQLite's [DATE('now')].  The host's clock is not set before 1970-01-01,
      the origin of [time.time()]: the local day is a natural number.
    - The outside world.  [random] and [yfinance] are oracles indexed by the
      number of calls made so far; the counters live in the [World]. *)

From Stdlib Require Import QArith Qround Lqa Ascii.
From stdpp Require Import gmap strings list sorting.

Local Open Scope Z_scope.

(** ** Numbers *)

Module Num.

Definition num : Type := option Q.

Definition lift2 (f : Q → Q → Q) (a b : num) : num :=
  match a, b with
  | Some x, Some y => Some (f x y)
  | _, _ => None
  end.

Definition add : num → num → num := lift2 Qplus.
Definition sub : num → num → num := lift2 Qminus.
Definition mul : num → num → num := lift2 Qmult.

(** [x / y] of numpy: no exception, the result of a zero divisor is marked. *)
Definition div (a b : num) : num :=
  match a, b with
  | Some x, Some y => if Qeq_bool y 0 then None else Some (x / y)%Q
  | _, _ => None
  end.

(** Python's [max(a, b)]: the first argument unless the second is greater. *)
Definition qmax (a b : Q) : Q := if Qlt_le_dec a b then b else a.
Definition qmin (a b : Q) : Q := if Qlt_le_dec b a then b else a.

Definition maximum : num → num → num := lift2 qmax.
Definition minimum : num → num → num := lift2 qmin.

(** Equality of results, up to the representation of a fraction. *)
Definition eq (a b : num) : Prop :=
  match a, b with
  | Some x, Some y => (x == y)%Q
  | None, None => True
  | _, _ => False
  end.

End Num.

Abbreviation num := Num.num.
Infix "=n=" := Num.eq (at level 70, no associativity).

(** ** Arrays: the numpy operations that [calculate_metrics] uses *)

Section accumulate.
Context {A : Type} (f : A → A → A).

Fixpoint accumulate_from (acc : A) (l : list A) : list A :=
  match l with
  | [] => []
  | x :: t => let a := f acc x in a :: accumulate_from a t
  end.

(** [ufunc.accumulate]: the running fold; the first element starts it. *)
Definition accumulate (l : list A) : list A :=
  match l with
  | [] => []
  | x :: t => x :: accumulate_from x t
  end.
End accumulate.

(** [np.diff(a)]: [a[i+1] - a[i]]. *)
Definition np_diff (a : list Q) : list Q :=
  zip_with (λ x y, (y - x)%Q) a (tail a).

(** [a[:-1]]. *)
Definition but_last {A} (a : list A) : list A := take (length a - 1)%nat a.

(** [a[0]], [a[-1]] and [a[-2]]; the callers have checked the length. *)
Definition first_of (a : list Q) : Q := default 0%Q (head a).
Definition last_of (a : list Q) : Q := default 0%Q (last a).
Definition second_last_of (a : list Q) : Q := last_of (but_last a).

Definition np_sum (a : list num) : num := foldl Num.add (Some 0%Q) a.

Definition np_mean (a : list num) : num :=
  Num.div (np_sum a) (Some (inject_Z (Z.of_nat (length a)))).

(** [np.min]; it raises on an empty array, which [calculate_metrics] never
    passes (at least one daily return exists). *)
Definition np_min (a : list num) : num :=
  match a with
  | [] => None
  | x :: t => foldl Num.minimum x t
  end.

Definition cumprod : list num → list num := accumulate Num.mul.
Definition maximum_accumulate : list num → list num := accumulate Num.maximum.

(** ** Price bars and metrics *)

Record Bar := mkBar {
  date : Z;
  open : Q;
  high : Q;
  low : Q;
  close : Q;
  volume : Z
}.

Record Metrics := mkMetrics {
  returns : num;
  volatility : num;
  max_drawdown : num;
  current_price : num;
  price_change : num;
  price_change_pct : num
}.

Definition date_le (a b : Bar) : Prop := date a ≤ date b.
Definition date_lt (a b : Bar) : Prop := date a < date b.

Global Instance date_le_dec a b : Decision (date_le a b) := Z_le_dec _ _.

(** [df.sort_values('date')]. *)
Definition sort_values_date (df : list Bar) : list Bar := merge_sort date_le df.

Section metrics.
(** [np.sqrt] on the rationals is left open: no property below depends on
    which function it is. *)
Variable np_sqrt : Q → Q.

(** [np.std]: the population standard deviation. *)
Definition np_std (a : list num) : num :=
  let m := np_mean a in
  let sq := map (λ x, let d := Num.sub x m in Num.mul d d) a in
  np_sqrt <$> np_mean sq.

Definition daily_returns_of (closes : list Q) : list num :=
  zip_with (λ d c, Num.div (Some d) (Some c)) (np_diff closes) (but_last closes).

Definition drawdown_of (daily_returns : list num) : list num :=
  let cumulative := cumprod (map (Num.add (Some 1%Q)) daily_returns) in
  let running_max := maximum_accumulate cumulative in
  zip_with (λ c m, Num.div (Num.sub c m) m) cumulative running_max.

Definition calculate_metrics (prices_df : list Bar) : Metrics :=
  if decide (length prices_df < 2)%nat then
    mkMetrics (Some 0%Q) (Some 0%Q) (Some 0%Q) (Some 0%Q) (Some 0%Q) (Some 0%Q)
  else
    let prices_df := sort_values_date prices_df in
    let closes := map close prices_df in
    let total_return :=
      Num.div (Some (last_of closes - first_of closes)%Q) (Some (first_of closes)) in
    let daily_returns := daily_returns_of closes in
    let volatility := Num.mul (np_std daily_returns) (Some (np_sqrt 252%Q)) in
    let max_drawdown := np_min (drawdown_of daily_returns) in
    let current_price := last_of closes in
    let price_change :=
      if decide (1 < length closes)%nat
      then (last_of closes - second_last_of closes)%Q else 0%Q in
    let price_change_pct :=
      if decide (1 < length closes)%nat
      then (if Qeq_bool (second_last_of closes) 0 then Some 0%Q
            else Num.div (Some price_change) (Some (second_last_of closes)))
      else Some 0%Q in
    mkMetrics total_return volatility max_drawdown
              (Some current_price) (Some price_change) price_change_pct.
End metrics.

(** ** Strings and small Python helpers *)

(** [str.upper] and [str.strip] on ASCII text. *)
Definition upper_ascii (c : ascii) : ascii :=
  let n := nat_of_ascii c in
  if ((97 <=? n) && (n <=? 122))%nat then ascii_of_nat (n - 32) else c.

Fixpoint upper (s : string) : string :=
  match s with
  | EmptyString => EmptyString
  | String c t => String (upper_ascii c) (upper t)
  end.

Definition is_space (c : ascii) : bool :=
  let n := nat_of_ascii c in
  (((9 <=? n) && (n <=? 13)) || ((28 <=? n) && (n <=? 32)))%nat.

Fixpoint lstrip (s : string) : string :=
  match s with
  | EmptyString => EmptyString
  | String c t => if is_space c then lstrip t else s
  end.

Definition strip (s : string) : string :=
  String.rev (lstrip (String.rev (lstrip s))).

(** [round(x, 2)]: Python rounds half to even. *)
Definition round_half_even (x : Q) : Z :=
  let f := Qfloor x in
  let r := (x - inject_Z f)%Q in
  if Qlt_le_dec r (1 # 2) then f
  else if Qlt_le_dec (1 # 2) r then f + 1
  else if Z.even f then f else f + 1.

Definition round2 (x : Q) : Q := (inject_Z (round_half_even (x * 100)) / 100)%Q.

Inductive TimeRange := SEVEN_DAYS | ONE_MONTH | SIX_MONTHS | ONE_YEAR.

Definition value (r : TimeRange) : string :=
  match r with
  | SEVEN_DAYS => "7d"
  | ONE_MONTH => "1mo"
  | SIX_MONTHS => "6mo"
  | ONE_YEAR => "1y"
  end.

Definition yf_range_to_period (range_str : string) : string :=
  let mapping : gmap string string :=
    list_to_map [("7d", "7d"); ("1mo", "1mo"); ("6mo", "6mo"); ("1y", "1y")] in
  default "1mo" (mapping !! range_str).

Definition CACHE_TTL : Q := 300%Q.

(** ** The synthetic series *)

Definition base_prices : gmap string Q :=
  list_to_map [("AAPL", 180%Q); ("MSFT", 350%Q); ("GOOGL", 140%Q);
               ("SPY", 450%Q); ("QQQ", 380%Q); ("TSLA", 200%Q)].

Definition base_price_of (symbol : string) : Q :=
  default 100%Q (base_prices !! symbol).

(** [datetime.min] is 0001-01-01, which is 719162 days before 1970-01-01. *)
Definition DATE_MIN : Z := -719162.

(** [datetime.now() - timedelta(days=delta)] on the day [today], for a
    [delta] that is not negative: the day [delta] days back, or
    [OverflowError] (here [None]) when that day is before [datetime.min].
    Going back from the day of [datetime.now()] cannot pass [datetime.max],
    and a [delta] beyond the 999999999 days of [timedelta], which raises
    [OverflowError] too, reaches before [datetime.min] from every day of the
    calendar. *)
Definition days_back (today delta : Z) : option Z :=
  if decide (DATE_MIN ≤ today - delta) then Some (today - delta) else None.

(** [for i in items: body], where the body may raise: the loop stops at the
    first pass that does. *)
Fixpoint for_each {S A : Type} (body : S → A → option S) (items : list A)
    (s : S) : option S :=
  match items with
  | [] => Some s
  | i :: items => s ← body s i; for_each body items s
  end.

Section random.
(** The generator behind [random]: what its [k]-th call returns, as
    [random.random()] and as [_randbelow(n)]. *)
Variable random_random : nat → Q.
Variable randbelow : nat → Z → Z.

(** [random.uniform(a, b)] is [a + (b - a) * random()]. *)
Definition uniform (a b : Q) (k : nat) : Q * nat :=
  ((a + (b - a) * random_random k)%Q, S k).

(** [random.randint(a, b)] is [a + _randbelow(b - a + 1)]. *)
Definition randint (a b : Z) (k : nat) : Z * nat :=
  (a + randbelow k (b - a + 1), S k).

(** One pass of the first loop: the date (which may raise), then the price. *)
Definition walk_step (base_price : Q) (days today : Z)
    (st : list Z * list Q * nat) (i : nat) : option (list Z * list Q * nat) :=
  let '(dates, prices, k) := st in
  date ← days_back today (days - Z.of_nat i - 1);
  let '(price, k) :=
    if decide (i = 0%nat) then (base_price, k)
    else
      let '(change, k) := uniform (-0.03)%Q 0.035%Q k in
      let price := (last_of prices * (1 + change))%Q in
      (Num.qmax price (base_price * 0.7)%Q, k) in
  Some (dates ++ [date], prices ++ [price], k).

Definition bar_step (st : list Bar * nat) (dp : Z * Q) : list Bar * nat :=
  let '(data, k) := st in
  let '(date, price) := dp in
  let '(volume, k) := randint 10000000 100000000 k in
  let '(u, k) := uniform 1.0%Q 1.03%Q k in
  let high := (price * u)%Q in
  let '(u, k) := uniform 0.97%Q 1.0%Q k in
  let low := (price * u)%Q in
  let '(open_price, k) := uniform low high k in
  (data ++ [mkBar date (round2 open_price) (round2 high) (round2 low)
                  (round2 price) volume], k).

(** [create_sample_data(symbol, days)], run on local day [today] with the
    generator at its [k]-th call: the bars and the generator's next call,
    or [None] when the function raises [OverflowError]. *)
Definition create_sample_data (symbol : string) (days : Z) (today : Z)
    (k : nat) : option (list Bar * nat) :=
  let base_price := base_price_of symbol in
  '(dates, prices, k) ←
    for_each (walk_step base_price days today) (seq 0 (Z.to_nat days)) ([], [], k);
  Some (foldl bar_step ([], k) (zip dates prices)).
End random.

(** ** The world: the in-memory cache, the two tables, the oracles' counters *)

(** The columns of a [prices] row next to its key [(symbol, date)]. *)
Definition Quote : Type := Q * Q * Q * Q * Z.

Definition quote_of (r : Bar) : Quote := (open r, high r, low r, close r, volume r).

Definition row_of (kv : string * Z * Quote) : Bar :=
  let '((_, d), (o, h, l, c, v)) := kv in mkBar d o h l c v.

Record World := mkWorld {
  CACHE : gmap (string * string) (list Bar * Q);
  prices : gmap (string * Z) Quote;
  summaries : gmap (string * Z * string) string;
  random_calls : nat;
  yf_calls : nat
}.

Definition set_CACHE (f : gmap (string * string) (list Bar * Q) →
                          gmap (string * string) (list Bar * Q)) (w : World) : World :=
  mkWorld (f (CACHE w)) (prices w) (summaries w) (random_calls w) (yf_calls w).

Definition set_prices (f : gmap (string * Z) Quote → gmap (string * Z) Quote)
    (w : World) : World :=
  mkWorld (CACHE w) (f (prices w)) (summaries w) (random_calls w) (yf_calls w).

Definition set_summaries (f : gmap (string * Z * string) string →
                              gmap (string * Z * string) string) (w : World) : World :=
  mkWorld (CACHE w) (prices w) (f (summaries w)) (random_calls w) (yf_calls w).

Definition set_random_calls (k : nat) (w : World) : World :=
  mkWorld (CACHE w) (prices w) (summaries w) k (yf_calls w).

Definition set_yf_calls (k : nat) (w : World) : World :=
  mkWorld (CACHE w) (prices w) (summaries w) (random_calls w) k.

Record Clock := mkClock {
  time_now : Q;       (* time.time() *)
  local_day : N;      (* the day of datetime.now(), counted from 1970-01-01 *)
  utc_today : Z       (* the day of SQLite's DATE('now') *)
}.

(** The day of [datetime.now()] as a date. *)
Definition local_today (clk : Clock) : Z := Z.of_N (local_day clk).

(** What [ticker.history] does on one call: it raises, or returns nothing, or
    a frame (given here by the rows the program builds from it). *)
Inductive YfResult :=
  | YfRaises
  | YfNone
  | YfFrame (hist : list Bar).

(** ** The persistent store *)

(** [SELECT COUNT( * ) FROM prices WHERE symbol = ? AND date >= DATE('now', '-1 day')] *)
Definition count_recent (symbol : string) (utc : Z)
    (t : gmap (string * Z) Quote) : nat :=
  size (filter (λ kv, kv.1.1 = symbol ∧ utc - 1 ≤ kv.1.2) t).

(** [DELETE FROM prices WHERE symbol = ?] *)
Definition delete_symbol (symbol : string)
    (t : gmap (string * Z) Quote) : gmap (string * Z) Quote :=
  filter (λ kv, kv.1.1 ≠ symbol) t.

(** [INSERT OR REPLACE INTO prices ...], once for every row of [price_data]. *)
Definition insert_rows (symbol : string) (price_data : list Bar)
    (t : gmap (string * Z) Quote) : gmap (string * Z) Quote :=
  foldl (λ t row, <[(symbol, date row) := quote_of row]> t) t price_data.

Definition replaceSeries (symbol : string) (price_data : list Bar)
    (t : gmap (string * Z) Quote) : gmap (string * Z) Quote :=
  insert_rows symbol price_data (delete_symbol symbol t).

(** [SELECT date, open, high, low, close, volume FROM prices
     WHERE symbol = ? AND date >= ? ORDER BY date] *)
Definition windowed (symbol : string) (start_date : Z)
    (t : gmap (string * Z) Quote) : list Bar :=
  merge_sort date_le
    (row_of <$> map_to_list (filter (λ kv, kv.1.1 = symbol ∧ start_date ≤ kv.1.2) t)).

(** The [summaries] table. *)
Definition getSummary (symbol : string) (as_of : Z) (horizon : string)
    (t : gmap (string * Z * string) string) : option string :=
  t !! (symbol, as_of, horizon).

Definition putSummary (symbol : string) (as_of : Z) (horizon : string)
    (text : string) (t : gmap (string * Z * string) string) :
    gmap (string * Z * string) string :=
  <[(symbol, as_of, horizon) := text]> t.

(** ** Responses *)

Inductive Response (A : Type) :=
  | Ok (body : A)
  | HTTPException (status_code : Z).
Arguments Ok {A} body.
Arguments HTTPException {A} status_code.

Record PricesBody := mkPricesBody {
  body_symbol : string;
  body_range : string;
  body_data : list Bar;
  body_metrics : Metrics
}.

Record SummaryBody := mkSummaryBody {
  summary_symbol : string;
  summary : string;
  cached : bool
}.

(** The [metrics] entry of the response: percentages, two decimals. *)
Definition percent (x : num) : num := (λ q, round2 (q * 100)%Q) <$> x.
Definition rounded (x : num) : num := round2 <$> x.

Definition present (m : Metrics) : Metrics :=
  mkMetrics (percent (returns m)) (percent (volatility m))
            (percent (max_drawdown m)) (rounded (current_price m))
            (rounded (price_change m)) (percent (price_change_pct m)).

Definition window_days (range : TimeRange) : Z :=
  match range with
  | SEVEN_DAYS => 7
  | ONE_MONTH => 30
  | SIX_MONTHS => 180
  | ONE_YEAR => 365
  end.

(** ** The pipeline *)

Section pipeline.
Variable np_sqrt : Q → Q.
Variable random_random : nat → Q.
Variable randbelow : nat → Z → Z.
(** [yf_history symbol period k]: the [k]-th call made to the upstream. *)
Variable yf_history : string → string → nat → YfResult.
(** The summary formatter, a function of the symbol, the presented
    metrics and the range. *)
Variable generate_mock_summary : string → Metrics → string → string.

(** [hist is not None and not hist.empty and len(hist) >= 2] *)
Definition usable (r : YfResult) : option (list Bar) :=
  match r with
  | YfFrame hist => if decide (2 ≤ length hist)%nat then Some hist else None
  | YfNone | YfRaises => None
  end.

(** The loop [for attempt in range(max_retries)], with [n] passes left.
    A pass that raises or gets too few bars goes on to the next one; a
    usable frame is cached and returned at once. *)
Fixpoint retry_loop (symbol period : string) (now : Q) (n attempt : nat)
    (w : World) : option (list Bar) * World :=
  match n with
  | O => (None, w)
  | S n' =>
      let w :=
        if decide (0 < attempt)%nat
        then set_random_calls (uniform random_random 2%Q 5%Q (random_calls w)).2 w
        else w in
      let r := yf_history symbol period (yf_calls w) in
      let w := set_yf_calls (S (yf_calls w)) w in
      match usable r with
      | Some data => (Some data, set_CACHE (insert (symbol, period) (data, now)) w)
      | None => retry_loop symbol period now n' (S attempt) w
      end
  end.

Definition fallback_days (period : string) : Z :=
  if decide (period = "1mo" ∨ period = "7d") then 30
  else if decide (period = "6mo") then 180 else 365.

(** The body of [fetch_yfinance_with_retry] below its cache check.  The
    result is the series, or [None] when the call ends in an exception: the
    loop catches its own, so this is the [OverflowError] of
    [create_sample_data], raised before anything is cached. *)
Definition fetch_uncached (symbol period : string) (max_retries : nat)
    (clk : Clock) (w : World) : option (list Bar) * World :=
  match retry_loop symbol period (time_now clk) max_retries 0 w with
  | (Some data, w) => (Some data, w)
  | (None, w) =>
      let days := fallback_days period in
      match create_sample_data random_random randbelow symbol days
                               (local_today clk) (random_calls w) with
      | Some (data, k) =>
          let w := set_random_calls k w in
          (Some data, set_CACHE (insert (symbol, period) (data, time_now clk)) w)
      | None => (None, w)
      end
  end.

Definition fetch_yfinance_with_retry (symbol period : string)
    (max_retries : nat) (clk : Clock) (w : World) : option (list Bar) * World :=
  let cache_key := (symbol, period) in
  let now := time_now clk in
  match CACHE w !! cache_key with
  | Some (data, timestamp) =>
      if Qlt_le_dec (now - timestamp) CACHE_TTL then (Some data, w)
      else fetch_uncached symbol period max_retries clk
             (set_CACHE (delete cache_key) w)
  | None => fetch_uncached symbol period max_retries clk w
  end.

(** [get_prices].  An exception of the fetch is answered with 500 by the
    [try] block (storage errors are outside this model); the 404 response is
    the empty window.  The window's first day is at most 365 days before
    the local day, a day [datetime] holds. *)
Definition get_prices (symbol : string) (range : TimeRange) (clk : Clock)
    (w : World) : Response PricesBody * World :=
  let symbol := strip (upper symbol) in
  let has_recent_data :=
    bool_decide (0 < count_recent symbol (utc_today clk) (prices w))%nat in
  let answer (w : World) : Response PricesBody * World :=
    let start_date := local_today clk - window_days range in
    let rows := windowed symbol start_date (prices w) in
    match rows with
    | [] => (HTTPException 404, w)
    | _ :: _ =>
        let metrics := calculate_metrics np_sqrt rows in
        (Ok (mkPricesBody symbol (value range) rows (present metrics)), w)
    end in
  if has_recent_data then answer w
  else
    let period := yf_range_to_period (value range) in
    match fetch_yfinance_with_retry symbol period 2 clk w with
    | (Some price_data, w) => answer (set_prices (replaceSeries symbol price_data) w)
    | (None, w) => (HTTPException 500, w)
    end.

Definition generate_summary (symbol : string) (range : TimeRange)
    (clk : Clock) (w : World) : Response SummaryBody * World :=
  let today := local_today clk in
  match getSummary (upper symbol) today (value range) (summaries w) with
  | Some text => (Ok (mkSummaryBody (upper symbol) text true), w)
  | None =>
      match get_prices symbol range clk w with
      | (HTTPException _, w) => (HTTPException 400, w)
      | (Ok price_response, w) =>
          let metrics := body_metrics price_response in
          let text := generate_mock_summary (upper symbol) metrics (value range) in
          let w := set_summaries (putSummary (upper symbol) today (value range) text) w in
          (Ok (mkSummaryBody (upper symbol) text false), w)
      end
  end.
End pipeline.

(** ** CSV export and symbol search *)

Section export.
Variable np_sqrt : Q → Q.
Variable random_random : nat → Q.
Variable randbelow : nat → Z → Z.
Variable yf_history : string → string → nat → YfResult.
(** The text that [csv.writer] and the f-strings produce from the response. *)
Variable csv_text : string → TimeRange → Clock → PricesBody → string.

(** [export_data]: its [except Exception] also catches the 404 of
    [get_prices] and answers 500. *)
Definition export_data (symbol : string) (range : TimeRange) (clk : Clock)
    (w : World) : Response string * World :=
  match get_prices np_sqrt random_random randbelow yf_history symbol range clk w with
  | (Ok price_response, w) => (Ok (csv_text symbol range clk price_response), w)
  | (HTTPException _, w) => (HTTPException 500, w)
  end.
End export.

(** The table of [search_symbols], in the order of the dict. *)
Definition common_symbols : list (string * string) :=
  [("SPY", "SPDR S&P 500 ETF Trust");
   ("QQQ", "Invesco QQQ Trust");
   ("VTI", "Vanguard Total Stock Market ETF");
   ("AAPL", "Apple Inc.");
   ("MSFT", "Microsoft Corporation");
   ("GOOGL", "Alphabet Inc. Class A");
   ("AMZN", "Amazon.com Inc.");
   ("TSLA", "Tesla Inc.");
   ("NVDA", "NVIDIA Corporation");
   ("META", "Meta Platforms Inc.");
   ("BRK-B", "Berkshire Hathaway Inc. Class B");
   ("JNJ", "Johnson & Johnson");
   ("V", "Visa Inc.");
   ("WMT", "Walmart Inc.");
   ("JPM", "JPMorgan Chase & Co.")].

(** [s.startswith(p)] *)
Fixpoint startswith (p s : string) : bool :=
  match p, s with
  | EmptyString, _ => true
  | String a p', String b s' => if decide (a = b) then startswith p' s' else false
  | String _ _, EmptyString => false
  end.

(** [sub in s] on strings: [sub] occurs in [s] at some position. *)
Fixpoint str_in (sub s : string) : bool :=
  startswith sub s ||
  match s with
  | EmptyString => false
  | String _ s' => str_in sub s'
  end.

Definition symbol_matches (query_upper : string) (entry : string * string) : bool :=
  str_in query_upper entry.1 || str_in query_upper (upper entry.2)
  || startswith query_upper entry.1.

(** [search_symbols]: the matching entries in table order, ten at most. *)
Definition search_symbols (query : string) : list (string * string) :=
  let query_upper := upper query in
  take 10 (filter (λ entry, symbol_matches query_upper entry = true) common_symbols).

(** ** Sample instances of the oracles, for evaluation *)

Definition sqrt_sample (q : Q) : Q := inject_Z (Z.sqrt (Qfloor q)).
Definition random_half : nat → Q := λ _, (1 # 2)%Q.
Definition randbelow_zero : nat → Z → Z := λ _ _, 0.
Definition yf_down : string → string → nat → YfResult := λ _ _ _, YfRaises.
Definition summary_sample : string → Metrics → string → string := λ s _ r, s +:+ " " +:+ r.

Definition empty_world : World := mkWorld ∅ ∅ ∅ 0 0.
Definition bar_of_close (d : Z) (c : Q) : Bar := mkBar d c c c c 0.
Definition stored_world : World :=
  mkWorld ∅
    (<[("SPY", 20000) := quote_of (bar_of_close 20000 451)]>
       (<[("SPY", 19999) := quote_of (bar_of_close 19999 450)]> ∅))
    ∅ 0 0.
Definition yf_up : string → string → nat → YfResult :=
  λ _ _ _, YfFrame [bar_of_close 19999 100; bar_of_close 20000 101].


(** ** Vocabulary of the properties *)

(** The first date of a series of [days] bars that ends [today] is a day
    that [datetime] holds (or the series is empty). *)
Definition in_calendar (days today : Z) : Prop :=
  days ≤ 0 ∨ DATE_MIN ≤ today - (days - 1).

Global Instance in_calendar_dec days today : Decision (in_calendar days today).
Proof. unfold in_calendar. apply _. Defined.

Definition zero_metrics : Metrics :=
  mkMetrics (Some 0%Q) (Some 0%Q) (Some 0%Q) (Some 0%Q) (Some 0%Q) (Some 0%Q).

Definition nonzero (q : Q) : Prop := ¬ (q == 0)%Q.

(** No field of the snapshot went through a division by zero. *)
Definition division_free (m : Metrics) : Prop :=
  is_Some (returns m) ∧ is_Some (volatility m) ∧ is_Some (max_drawdown m)
  ∧ is_Some (current_price m) ∧ is_Some (price_change m)
  ∧ is_Some (price_change_pct m).

(** Every cached series has the two bars a metric needs. *)
Definition cache_ok (w : World) : Prop :=
  ∀ key data ts, CACHE w !! key = Some (data, ts) → (2 ≤ length data)%nat.

(** What the generator promises of its draws: [random()] lies in [0, 1) and
    [_randbelow(n)] in [0, n). *)
Definition unit_draws (random_random : nat → Q) : Prop :=
  ∀ k, (0 <= random_random k)%Q ∧ (random_random k < 1)%Q.

Definition below_draws (randbelow : nat → Z → Z) : Prop :=
  ∀ k n, 0 < n → 0 ≤ randbelow k n < n.

(** The fields of a bar are in the order low <= open, close <= high. *)
Definition ohlc_ordered (b : Bar) : Prop :=
  (low b <= close b)%Q ∧ (close b <= high b)%Q
  ∧ (low b <= open b)%Q ∧ (open b <= high b)%Q.

(** * Properties *)

Global Instance date_le_trans : Transitive date_le.
Proof. unfold date_le; intros ???; lia. Qed.

Global Instance date_le_total : Total date_le.
Proof. unfold date_le; intros ??; lia. Qed.

Lemma sort_values_date_perm df : sort_values_date df ≡ₚ df.
Proof. apply merge_sort_Permutation. Qed.

Lemma sort_values_date_length df : length (sort_values_date df) = length df.
Proof. apply Permutation_length, sort_values_date_perm. Qed.

Lemma closes_length df : length (map close (sort_values_date df)) = length df.
Proof. by rewrite length_map, sort_values_date_length. Qed.

(** ** MetricsEngine *)

(** C4.  A frame of fewer than two bars, the empty one included, gets the
    all-zero snapshot; [calculate_metrics] is a total function, so no input
    makes it fail. *)
Theorem calculate_metrics_degenerate np_sqrt (df : list Bar) :
  (length df < 2)%nat → calculate_metrics np_sqrt df = zero_metrics.
Proof.
  intros Hlen. unfold calculate_metrics.
  destruct (decide (length df < 2)%nat); [reflexivity | contradiction].
Qed.

Lemma calculate_metrics_degenerate_witness :
  calculate_metrics sqrt_sample [] = zero_metrics
  ∧ calculate_metrics sqrt_sample [bar_of_close 7 (125 # 1)] = zero_metrics.
Proof.
  split; apply calculate_metrics_degenerate; simpl; lia.
Defined.

Lemma calculate_metrics_unfold np_sqrt df :
  (2 ≤ length df)%nat →
  calculate_metrics np_sqrt df =
    let closes := map close (sort_values_date df) in
    let daily_returns := daily_returns_of closes in
    mkMetrics
      (Num.div (Some (last_of closes - first_of closes)%Q) (Some (first_of closes)))
      (Num.mul (np_std np_sqrt daily_returns) (Some (np_sqrt 252%Q)))
      (np_min (drawdown_of daily_returns))
      (Some (last_of closes))
      (Some (last_of closes - second_last_of closes)%Q)
      (if Qeq_bool (second_last_of closes) 0 then Some 0%Q
       else Num.div (Some (last_of closes - second_last_of closes)%Q)
                    (Some (second_last_of closes))).
Proof.
  intros Hlen. unfold calculate_metrics.
  destruct (decide (length df < 2)%nat); [lia|].
  rewrite closes_length.
  destruct (decide (1 < length df)%nat); [reflexivity | lia].
Qed.

Lemma closes_fix_length df (cs : list Q) :
  map close (sort_values_date df) = cs → length df = length cs.
Proof. intros <-. by rewrite closes_length. Qed.

(** C2 (the code at the failing input).  The specification measures the
    drawdown of the closes 100, 90, 95 against a running maximum that
    includes the starting point 1, and asks for -0.10.  In the code the
    cumulative path is 0.9, 0.95 and its running maximum,
    [np.maximum.accumulate(cumulative)], starts at 0.9: the starting point is
    left out, no point of the path lies below the maximum, and the maximum
    drawdown is 0.  The fall from the close of the first bar is lost. *)
Theorem max_drawdown_100_90_95 np_sqrt (df : list Bar) :
  map close (sort_values_date df) = [100; 90; 95]%Q →
  Forall2 Num.eq (drawdown_of (daily_returns_of [100; 90; 95]%Q)) [Some 0%Q; Some 0%Q] ∧
  max_drawdown (calculate_metrics np_sqrt df) =n= Some 0%Q.
Proof.
  intros Hc. split; [by repeat constructor|].
  rewrite calculate_metrics_unfold by (rewrite (closes_fix_length _ _ Hc); simpl; lia).
  cbn zeta. rewrite Hc. cbn [max_drawdown]. vm_compute. reflexivity.
Qed.

Lemma max_drawdown_100_90_95_witness :
  let df := [bar_of_close 1 100; bar_of_close 2 90; bar_of_close 3 95]%Q in
  map close (sort_values_date df) = [100; 90; 95]%Q
  ∧ max_drawdown (calculate_metrics sqrt_sample df) =n= Some 0%Q.
Proof.
  split; [reflexivity|].
  apply (max_drawdown_100_90_95 sqrt_sample); reflexivity.
Defined.

(** On the closes 100, 90, 95 the maximum drawdown of the code is not the
    -0.10 of the specification. *)
Lemma max_drawdown_100_90_95_is_not_minus_10 :
  ¬ (max_drawdown (calculate_metrics sqrt_sample
       [bar_of_close 1 100; bar_of_close 2 90; bar_of_close 3 95]%Q)
     =n= Some (-0.10)%Q).
Proof. vm_compute. discriminate. Qed.

(** The same defect without a recovery: a fall from 100 to 1, and a fall
    from 100 to 50 that lasts, have a maximum drawdown of 0. *)
Lemma first_fall_is_lost :
  max_drawdown (calculate_metrics sqrt_sample
    [bar_of_close 1 100; bar_of_close 2 1]%Q) =n= Some 0%Q
  ∧ max_drawdown (calculate_metrics sqrt_sample
      [bar_of_close 1 100; bar_of_close 2 50; bar_of_close 3 50;
       bar_of_close 4 50]%Q) =n= Some 0%Q.
Proof. split; by vm_compute. Qed.

Lemma but_last_snoc {A} (l : list A) (x : A) : but_last (l ++ [x]) = l.
Proof.
  unfold but_last. rewrite length_app. simpl.
  replace (length l + 1 - 1)%nat with (length l) by lia.
  by rewrite take_app_length.
Qed.

Lemma last_of_snoc (l : list Q) (x : Q) : last_of (l ++ [x]) = x.
Proof. unfold last_of. by rewrite last_snoc. Qed.

Lemma second_last_of_app (pre : list Q) (a b : Q) :
  second_last_of (pre ++ [a; b]) = a.
Proof.
  unfold second_last_of.
  change (pre ++ [a; b]) with (pre ++ [a] ++ [b]).
  by rewrite app_assoc, but_last_snoc, last_of_snoc.
Qed.

(** C7.  Two bars with closes 100 and 110 give a return of 0.10, a price
    change of 10 and a relative change of 0.10; and whenever the close before
    the last one is 0 the relative change is 0: the guard answers, no
    division is made. *)
Theorem two_bar_metrics np_sqrt :
  (∀ df : list Bar,
     map close (sort_values_date df) = [100; 110]%Q →
     let m := calculate_metrics np_sqrt df in
     returns m =n= Some 0.10%Q ∧ price_change m =n= Some 10%Q
     ∧ price_change_pct m =n= Some 0.10%Q)
  ∧ (∀ (df : list Bar) (pre : list Q) (c_prev c_last : Q),
       map close (sort_values_date df) = pre ++ [c_prev; c_last] →
       (c_prev == 0)%Q →
       price_change_pct (calculate_metrics np_sqrt df) = Some 0%Q).
Proof.
  split.
  - intros df Hc m. subst m.
    rewrite calculate_metrics_unfold by (rewrite (closes_fix_length _ _ Hc); simpl; lia).
    cbn zeta. rewrite Hc. cbn [returns price_change price_change_pct].
    vm_compute. done.
  - intros df pre c_prev c_last Hc Hz.
    rewrite calculate_metrics_unfold.
    + cbn zeta. rewrite Hc. cbn [price_change_pct].
      rewrite second_last_of_app.
      apply Qeq_bool_iff in Hz. by rewrite Hz.
    + rewrite (closes_fix_length _ _ Hc), length_app. simpl. lia.
Qed.

Lemma two_bar_metrics_witness :
  (let m := calculate_metrics sqrt_sample [bar_of_close 1 100; bar_of_close 2 110]%Q in
   returns m =n= Some 0.10%Q ∧ price_change m =n= Some 10%Q
   ∧ price_change_pct m =n= Some 0.10%Q)
  ∧ price_change_pct (calculate_metrics sqrt_sample
      [bar_of_close 1 40; bar_of_close 2 0; bar_of_close 3 25]%Q) = Some 0%Q.
Proof.
  split.
  - apply (proj1 (two_bar_metrics sqrt_sample)). reflexivity.
  - apply (proj2 (two_bar_metrics sqrt_sample) _ [40%Q] 0%Q 25%Q); reflexivity.
Defined.

(** *** Which results are numbers *)

Lemma lift2_is_Some f (a b : num) :
  is_Some (Num.lift2 f a b) ↔ is_Some a ∧ is_Some b.
Proof.
  destruct a, b; simpl; split; intros H; try (by destruct H as [[??] [??]]);
    try (by destruct H); eauto.
Qed.

Lemma div_is_Some (a b : num) :
  is_Some (Num.div a b) ↔ is_Some a ∧ ∃ y, b = Some y ∧ nonzero y.
Proof.
  unfold nonzero. destruct a as [x|], b as [y|]; simpl.
  - destruct (Qeq_bool y 0) eqn:E.
    + apply Qeq_bool_iff in E. split; [by intros [??]|].
      intros [_ (y' & [= <-] & Hy)]. contradiction.
    + apply Qeq_bool_neq in E. split; eauto.
  - split; [by intros [??] | by intros [_ (? & ? & _)]].
  - split; [by intros [??] | by intros [[??] _]].
  - split; [by intros [??] | by intros [[??] _]].
Qed.

Lemma foldl_lift2_is_Some f (l : list num) (a : num) :
  is_Some (foldl (Num.lift2 f) a l) ↔ is_Some a ∧ Forall is_Some l.
Proof.
  revert a. induction l as [|x l IH]; intros a; simpl.
  - split; [intros ?; split; [done | constructor] | by intros [? _]].
  - rewrite IH, lift2_is_Some, Forall_cons. tauto.
Qed.

Lemma np_sum_is_Some (l : list num) : is_Some (np_sum l) ↔ Forall is_Some l.
Proof.
  unfold np_sum, Num.add. rewrite foldl_lift2_is_Some. split; [tauto | eauto].
Qed.

Lemma length_nonzero {A} (l : list A) :
  l ≠ [] → nonzero (inject_Z (Z.of_nat (length l))).
Proof.
  intros Hl. destruct l as [|x l]; [done|].
  unfold nonzero, Qeq. simpl length. simpl Qnum. simpl Qden. lia.
Qed.

Lemma np_mean_is_Some (l : list num) :
  l ≠ [] → is_Some (np_mean l) ↔ Forall is_Some l.
Proof.
  intros Hl. unfold np_mean. rewrite div_is_Some, np_sum_is_Some.
  split; [tauto|]. intros ?; split; [done|].
  eexists; split; [reflexivity|]. by apply length_nonzero.
Qed.

Lemma np_std_is_Some np_sqrt (l : list num) :
  l ≠ [] → is_Some (np_std np_sqrt l) ↔ Forall is_Some l.
Proof.
  intros Hl. unfold np_std. rewrite fmap_is_Some.
  rewrite np_mean_is_Some by (by destruct l).
  rewrite Forall_fmap.
  split.
  - intros H. eapply Forall_impl; [exact H|]. intros x Hx. simpl in Hx.
    unfold Num.mul, Num.sub in Hx. rewrite !lift2_is_Some in Hx. tauto.
  - intros H. pose proof (proj2 (np_mean_is_Some l Hl) H) as Hm.
    eapply Forall_impl; [exact H|]. intros x Hx. simpl.
    unfold Num.mul, Num.sub. rewrite !lift2_is_Some. tauto.
Qed.

Lemma np_min_is_Some (l : list num) :
  is_Some (np_min l) ↔ l ≠ [] ∧ Forall is_Some l.
Proof.
  destruct l as [|x l]; simpl.
  - split; [by intros [??] | by intros [? _]].
  - unfold Num.minimum. rewrite foldl_lift2_is_Some, Forall_cons.
    split; [by intros [??] | tauto].
Qed.

Lemma but_last_cons2 {A} (x y : A) (l : list A) :
  but_last (x :: y :: l) = x :: but_last (y :: l).
Proof. unfold but_last. simpl. by rewrite Nat.sub_0_r. Qed.

Lemma daily_returns_cons2 (c0 c1 : Q) (rest : list Q) :
  daily_returns_of (c0 :: c1 :: rest) =
    Num.div (Some (c1 - c0)%Q) (Some c0) :: daily_returns_of (c1 :: rest).
Proof. unfold daily_returns_of. by rewrite but_last_cons2. Qed.

Lemma daily_returns_single (c : Q) : daily_returns_of [c] = [].
Proof. reflexivity. Qed.

(** The daily returns are numbers exactly when no divisor, that is no close
    but the last, is zero. *)
Lemma daily_returns_is_Some (closes : list Q) :
  Forall is_Some (daily_returns_of closes) ↔ Forall nonzero (but_last closes).
Proof.
  induction closes as [|c0 closes IH]; [done|].
  destruct closes as [|c1 rest]; [done|].
  rewrite daily_returns_cons2, but_last_cons2, !Forall_cons, IH, div_is_Some.
  split.
  - intros [[_ (y & [= <-] & Hy)] ?]. done.
  - intros [? ?]. split; [|done]. split; [done|]. by exists c0.
Qed.

Lemma all_Some_fmap (l : list num) :
  Forall is_Some l → ∃ qs : list Q, l = Some <$> qs.
Proof.
  induction 1 as [|x l [q ->] _ [qs ->]]; [by exists []|]. by exists (q :: qs).
Qed.

Lemma accumulate_from_Some f (acc : Q) (qs : list Q) :
  accumulate_from (Num.lift2 f) (Some acc) (Some <$> qs) =
    Some <$> accumulate_from f acc qs.
Proof.
  revert acc. induction qs as [|q qs IH]; intros acc; [done|].
  simpl. by rewrite IH.
Qed.

Lemma accumulate_Some f (qs : list Q) :
  accumulate (Num.lift2 f) (Some <$> qs) = Some <$> accumulate f qs.
Proof. destruct qs as [|q qs]; [done|]. simpl. by rewrite accumulate_from_Some. Qed.

Lemma accumulate_from_length {A} (f : A → A → A) acc (l : list A) :
  length (accumulate_from f acc l) = length l.
Proof. revert acc. induction l; intros; simpl; [done|]. by rewrite IHl. Qed.

Lemma accumulate_length {A} (f : A → A → A) (l : list A) :
  length (accumulate f l) = length l.
Proof. destruct l; simpl; [done|]. by rewrite accumulate_from_length. Qed.

Lemma drawdown_entries_is_Some (cs ms : list Q) :
  length cs = length ms →
  Forall is_Some
    (zip_with (λ c m, Num.div (Num.sub c m) m) (Some <$> cs) (Some <$> ms))
  ↔ Forall nonzero ms.
Proof.
  revert ms. induction cs as [|c cs IH]; intros [|m ms] Hlen; try done.
  rewrite !fmap_cons. cbn [zip_with].
  rewrite !Forall_cons, IH by (simpl in Hlen; lia).
  change (Num.sub (Some c) (Some m)) with (Some (c - m)%Q).
  rewrite div_is_Some. split.
  - intros [[_ (y & [= <-] & Hy)] ?]. done.
  - intros [? ?]. split; [|done]. split; [done|]. by exists m.
Qed.

(** With numeric daily returns, the drawdown is a number exactly when no
    running maximum of the cumulative product is zero. *)
Lemma drawdown_is_Some (rs : list Q) :
  Forall is_Some (drawdown_of (Some <$> rs))
  ↔ Forall nonzero (accumulate Num.qmax (accumulate Qmult (Qplus 1 <$> rs))).
Proof.
  unfold drawdown_of, cumprod, maximum_accumulate, Num.mul, Num.maximum.
  replace (map (Num.add (Some 1%Q)) (Some <$> rs))
    with (Some <$> (Qplus 1 <$> rs)).
  - rewrite accumulate_Some, accumulate_Some.
    apply drawdown_entries_is_Some. by rewrite !accumulate_length.
  - induction rs as [|r rs IH]; [done|]. simpl. f_equal. exact IH.
Qed.

Lemma accumulate_from_qmax_pos (acc : Q) (l : list Q) :
  (0 < acc)%Q → Forall (λ m, 0 < m)%Q (accumulate_from Num.qmax acc l).
Proof.
  revert acc. induction l as [|x l IH]; intros acc Hacc; simpl; [constructor|].
  assert (0 < Num.qmax acc x)%Q as Hpos.
  { unfold Num.qmax. destruct (Qlt_le_dec acc x); [|done].
    by apply Qlt_trans with acc. }
  constructor; [done | by apply IH].
Qed.

Lemma pos_nonzero (q : Q) : (0 < q)%Q → nonzero q.
Proof. intros Hq Hz. rewrite Hz in Hq. by apply Qlt_irrefl in Hq. Qed.

Lemma first_cumulative_zero (c0 c1 : Q) :
  nonzero c0 → (1 + (c1 - c0) / c0 == 0)%Q ↔ (c1 == 0)%Q.
Proof.
  intros H0. assert (1 + (c1 - c0) / c0 == c1 / c0)%Q as -> by (field; exact H0).
  split.
  - intros H. assert (c1 == (c1 / c0) * c0)%Q as -> by (field; exact H0).
    rewrite H. ring.
  - intros ->. field. exact H0.
Qed.

Lemma first_cumulative_pos (c0 c1 : Q) :
  (0 < c0)%Q → (0 < c1)%Q → (0 < 1 + (c1 - c0) / c0)%Q.
Proof.
  intros H0 H1.
  assert (1 + (c1 - c0) / c0 == c1 / c0)%Q as ->
    by (field; by apply pos_nonzero).
  apply Qlt_shift_div_l; [done|]. by rewrite Qmult_0_l.
Qed.

Lemma div_nonzero (x y : Q) :
  nonzero y → Num.div (Some x) (Some y) = Some (x / y)%Q.
Proof.
  intros Hy. simpl. destruct (Qeq_bool y 0) eqn:E; [|done].
  by apply Qeq_bool_iff in E.
Qed.

Lemma volatility_is_Some np_sqrt (closes : list Q) :
  (2 ≤ length closes)%nat →
  is_Some (Num.mul (np_std np_sqrt (daily_returns_of closes)) (Some (np_sqrt 252%Q)))
  ↔ Forall nonzero (but_last closes).
Proof.
  intros Hlen. unfold Num.mul. rewrite lift2_is_Some.
  rewrite np_std_is_Some, daily_returns_is_Some.
  - split; [tauto | intros; split; [done | by eexists]].
  - destruct closes as [|c0 [|c1 rest]]; simpl in Hlen; try lia.
    by rewrite daily_returns_cons2.
Qed.

Lemma drawdown_nonempty (l : list num) : l ≠ [] → drawdown_of l ≠ [].
Proof. destruct l; [done|]. intros _. unfold drawdown_of. simpl. discriminate. Qed.

(** The drawdown of a series [c0; c1; ...] whose daily returns are numbers:
    it is a number as soon as the first cumulative value [c1 / c0] is
    positive, and only if that value is not zero. *)
Lemma max_drawdown_is_Some (c0 c1 : Q) (rest : list Q) :
  Forall nonzero (but_last (c0 :: c1 :: rest)) →
  (is_Some (np_min (drawdown_of (daily_returns_of (c0 :: c1 :: rest)))) → nonzero c1)
  ∧ ((0 < c0)%Q → (0 < c1)%Q →
     is_Some (np_min (drawdown_of (daily_returns_of (c0 :: c1 :: rest))))).
Proof.
  intros Hnz.
  assert (nonzero c0) as H0 by (rewrite but_last_cons2 in Hnz; by inv Hnz).
  destruct (all_Some_fmap _ (proj2 (daily_returns_is_Some _) Hnz)) as [rs Hrs].
  rewrite daily_returns_cons2, (div_nonzero _ _ H0) in Hrs.
  rewrite daily_returns_cons2, (div_nonzero _ _ H0), Hrs.
  destruct rs as [|r0 rs]; [done|]. injection Hrs as <- _.
  rewrite np_min_is_Some, drawdown_is_Some. simpl accumulate.
  split.
  - intros [_ Hall]. apply Forall_cons in Hall as [Hfirst _].
    intros Hc1. apply Hfirst. by apply first_cumulative_zero.
  - intros Hp0 Hp1. split; [by apply drawdown_nonempty|].
    pose proof (first_cumulative_pos c0 c1 Hp0 Hp1) as Hpos.
    constructor; [by apply pos_nonzero|].
    eapply Forall_impl; [by apply accumulate_from_qmax_pos|].
    intros ?. apply pos_nonzero.
Qed.

(** C10 (as the code has it).  With at least two bars: the relative price
    change is always a number (its divisor is guarded); a snapshot free of
    division by zero needs every close but the last to be nonzero; and for
    non-negative closes it is free of division by zero exactly when every
    close but the last is nonzero and the second close is nonzero too,
    because the drawdown also divides by the running maximum, which starts
    at [c1 / c0]. *)
Theorem division_free_iff np_sqrt (df : list Bar) :
  (2 ≤ length df)%nat →
  let closes := map close (sort_values_date df) in
  let m := calculate_metrics np_sqrt df in
  is_Some (price_change_pct m)
  ∧ (division_free m → Forall nonzero (but_last closes))
  ∧ (Forall (Qle 0) closes →
     division_free m ↔
       Forall nonzero (but_last closes) ∧ nonzero (nth 1 closes 0%Q)).
Proof.
  intros Hlen closes m. subst m.
  rewrite (calculate_metrics_unfold _ _ Hlen). cbn zeta. fold closes.
  assert (2 ≤ length closes)%nat as Hc by (unfold closes; by rewrite closes_length).
  clearbody closes. unfold division_free.
  cbn [returns volatility max_drawdown current_price price_change price_change_pct].
  assert (is_Some (if Qeq_bool (second_last_of closes) 0 then Some 0%Q
            else Num.div (Some (last_of closes - second_last_of closes)%Q)
                         (Some (second_last_of closes)))) as Hpct.
  { destruct (Qeq_bool (second_last_of closes) 0) eqn:E; [done|].
    apply Qeq_bool_neq in E. by rewrite div_nonzero. }
  split; [exact Hpct|]. split.
  - intros (_ & Hvol & _). by apply (volatility_is_Some np_sqrt closes Hc).
  - intros Hsign.
    destruct closes as [|c0 [|c1 rest]]; simpl in Hc; try lia.
    simpl nth. simpl first_of. split.
    + intros (_ & Hvol & Hdd & _).
      apply (volatility_is_Some np_sqrt (c0 :: c1 :: rest) Hc) in Hvol.
      split; [done|]. by apply (max_drawdown_is_Some c0 c1 rest Hvol).
    + intros [Hnz Hc1].
      assert (nonzero c0) as H0 by (rewrite but_last_cons2 in Hnz; by inv Hnz).
      apply Forall_cons in Hsign as [Hs0 Hsign].
      apply Forall_cons in Hsign as [Hs1 _].
      assert (0 < c0)%Q as Hp0.
      { apply Qle_lteq in Hs0 as [?|Heq]; [done|]. by destruct H0. }
      assert (0 < c1)%Q as Hp1.
      { apply Qle_lteq in Hs1 as [?|Heq]; [done|]. by destruct Hc1. }
      split; [by rewrite div_nonzero|].
      split; [by apply (volatility_is_Some np_sqrt (c0 :: c1 :: rest) Hc)|].
      split; [by apply (max_drawdown_is_Some c0 c1 rest Hnz)|].
      split; [done|]. split; [done | exact Hpct].
Qed.

Lemma division_free_iff_witness :
  let df := [bar_of_close 1 100; bar_of_close 2 110; bar_of_close 3 0]%Q in
  is_Some (price_change_pct (calculate_metrics sqrt_sample df))
  ∧ division_free (calculate_metrics sqrt_sample df).
Proof.
  intros df.
  assert (2 ≤ length df)%nat as Hlen by (simpl; lia).
  destruct (division_free_iff sqrt_sample df Hlen) as (Hpct & _ & Hiff).
  split; [exact Hpct|].
  apply Hiff.
  - repeat constructor; by vm_compute.
  - split; [repeat constructor|]; by vm_compute.
Defined.

(** C10 as worded fails: in the two-bar series with closes 5 and 0 every
    close but the last is nonzero, and still the drawdown divides 0 by the
    running maximum 0. *)
Lemma zero_last_close_divides_by_zero :
  let df := [bar_of_close 1 5; bar_of_close 2 0]%Q in
  ¬ (Forall nonzero (but_last (map close (sort_values_date df)))
     → division_free (calculate_metrics sqrt_sample df)).
Proof.
  intros df H.
  assert (division_free (calculate_metrics sqrt_sample df)) as (_ & _ & Hdd & _).
  { apply H. repeat constructor. by vm_compute. }
  vm_compute in Hdd. by destruct Hdd.
Qed.

(** ** SyntheticSeriesGenerator *)

Lemma base_price_integer (symbol : string) :
  ∃ b : Z, 0 < b ∧ base_price_of symbol = inject_Z b.
Proof.
  unfold base_price_of, base_prices. cbn [list_to_map foldr fst snd uncurry].
  repeat match goal with
  | |- context [ <[?s := _]> _ !! symbol ] =>
      destruct (decide (s = symbol)) as [<-|];
      [rewrite lookup_insert_eq; simpl; eexists; split; [|reflexivity]; lia
      |rewrite lookup_insert_ne by done]
  end.
  rewrite lookup_empty. simpl. exists 100. split; [lia | reflexivity].
Qed.

Lemma round_half_even_floor (x : Q) : Qfloor x ≤ round_half_even x.
Proof.
  unfold round_half_even.
  repeat match goal with |- context [if ?c then _ else _] => destruct c end; lia.
Qed.

(** Rounding to two decimals does not go below a bound that has two
    decimals itself. *)
Lemma round2_keeps_floor (n : Z) (p : Q) :
  (inject_Z n / 100 <= p)%Q → (inject_Z n / 100 <= round2 p)%Q.
Proof.
  intros Hp. unfold round2.
  apply Qle_shift_div_l; [done|].
  assert (inject_Z n / 100 * 100 == inject_Z n)%Q as -> by (field; done).
  rewrite <- Zle_Qle.
  etrans; [|apply round_half_even_floor].
  trans (Qfloor (inject_Z n)); [by rewrite Qfloor_Z|].
  apply Qfloor_resp_le.
  apply (Qmult_le_r _ _ 100) in Hp; [|done].
  assert (inject_Z n / 100 * 100 == inject_Z n)%Q as Hn by (field; done).
  by rewrite Hn in Hp.
Qed.

Lemma for_each_snoc {S A : Type} (body : S → A → option S) (items : list A)
    (x : A) (s : S) :
  for_each body (items ++ [x]) s = for_each body items s ≫= λ s', body s' x.
Proof.
  revert s. induction items as [|i items IH]; intros s; simpl.
  - by destruct (body s x).
  - destruct (body s i); simpl; [apply IH | done].
Qed.

Section generator.
Variable random_random : nat → Q.
Variable randbelow : nat → Z → Z.
Variable base_price : Q.
Variables days today : Z.
Hypothesis base_price_pos : (0 <= base_price)%Q.

Let day_of (i : nat) : Z := today - (days - Z.of_nat i - 1).
Let above_floor (p : Q) : Prop := (base_price * 0.7 <= p)%Q.

Lemma qmax_above_floor (p : Q) : above_floor (Num.qmax p (base_price * 0.7)%Q).
Proof.
  unfold above_floor, Num.qmax.
  destruct (Qlt_le_dec p (base_price * 0.7)); [apply Qle_refl | done].
Qed.

Lemma walk_step_spec dates prices k i :
  DATE_MIN ≤ day_of i →
  ∃ p,
    walk_step random_random base_price days today (dates, prices, k) i
      = Some (dates ++ [day_of i], prices ++ [p],
              if decide (i = 0%nat) then k else S k)
    ∧ above_floor p.
Proof.
  intros Hday. unfold walk_step, days_back.
  destruct (decide (DATE_MIN ≤ today - (days - Z.of_nat i - 1))) as [_|]; [|done].
  cbn [mbind option_bind].
  destruct (decide (i = 0%nat)).
  - exists base_price. split; [done|]. unfold above_floor. lra.
  - simpl. eexists. split; [reflexivity|]. apply qmax_above_floor.
Qed.

Lemma walk_step_raises dates prices k i :
  day_of i < DATE_MIN →
  walk_step random_random base_price days today (dates, prices, k) i = None.
Proof.
  intros Hday. unfold walk_step, days_back.
  destruct (decide (DATE_MIN ≤ today - (days - Z.of_nat i - 1))); [|done].
  unfold day_of in Hday. lia.
Qed.

(** When the first date is a day [datetime] holds, so are the later ones:
    the loop runs to its end. *)
Lemma walk_spec (n k : nat) :
  ((0 < n)%nat → DATE_MIN ≤ day_of 0) →
  ∃ prices,
    for_each (walk_step random_random base_price days today) (seq 0 n) ([], [], k)
      = Some (day_of <$> seq 0 n, prices, (k + (n - 1))%nat)
    ∧ length prices = n ∧ Forall above_floor prices.
Proof.
  induction n as [|n IH]; intros Hfirst.
  - exists []. split; [|by split]. cbn [seq for_each fmap list_fmap].
    do 2 f_equal. lia.
  - destruct IH as (prices & Heq & Hlen & Hall); [intros; apply Hfirst; lia|].
    rewrite seq_S, for_each_snoc, Heq. cbn [mbind option_bind]. rewrite Nat.add_0_l.
    destruct (walk_step_spec (day_of <$> seq 0 n) prices (k + (n - 1))%nat n)
      as (p & -> & Hp).
    { assert (DATE_MIN ≤ day_of 0) by (apply Hfirst; lia). unfold day_of in *. lia. }
    exists (prices ++ [p]). rewrite fmap_app. repeat split.
    + do 2 f_equal. destruct (decide (n = 0%nat)); lia.
    + rewrite length_app. simpl. lia.
    + apply Forall_app. by repeat constructor.
Qed.

(** When the first date is before [datetime.min], the first pass raises. *)
Lemma walk_raises (n : nat) (st : list Z * list Q * nat) :
  (0 < n)%nat → day_of 0 < DATE_MIN →
  for_each (walk_step random_random base_price days today) (seq 0 n) st = None.
Proof.
  intros Hn Hday. destruct n as [|n]; [lia|]. destruct st as [[dates prices] k].
  cbn [seq for_each]. by rewrite walk_step_raises.
Qed.

Lemma bar_step_spec data k d price :
  ∃ b k', bar_step random_random randbelow (data, k) (d, price)
          = (data ++ [b], k')
    ∧ date b = d ∧ close b = round2 price.
Proof. unfold bar_step. simpl. eexists _, _. by repeat split. Qed.
End generator.

Lemma bars_spec rr rb (dps : list (Z * Q)) (data : list Bar) (k : nat) :
  ∃ bars k',
    foldl (bar_step rr rb) (data, k) dps = (data ++ bars, k')
    ∧ date <$> bars = dps.*1 ∧ close <$> bars = round2 <$> dps.*2.
Proof.
  revert data k. induction dps as [|[d p] dps IH]; intros data k.
  - exists [], k. by rewrite app_nil_r.
  - cbn [foldl].
    destruct (bar_step_spec rr rb data k d p) as (b & k1 & -> & Hd & Hc).
    destruct (IH (data ++ [b]) k1) as (bars & k2 & -> & Hds & Hcs).
    exists (b :: bars), k2. rewrite <- app_assoc. repeat split.
    + rewrite !fmap_cons. by rewrite Hd, Hds.
    + rewrite !fmap_cons. by rewrite Hc, Hcs.
Qed.

Lemma seq_strongly_sorted (a n : nat) : StronglySorted lt (seq a n).
Proof.
  revert a. induction n as [|n IH]; intros a; simpl; constructor; [apply IH|].
  apply Forall_seq. intros j Hj. lia.
Qed.

Lemma sorted_by_date (data : list Bar) :
  StronglySorted Z.lt (date <$> data) → StronglySorted date_lt data.
Proof.
  induction data as [|b data IH]; [constructor|].
  rewrite fmap_cons. intros Hs. inv Hs. constructor; [by apply IH|].
  by rewrite Forall_fmap in *.
Qed.

Lemma base_price_not_negative (symbol : string) : (0 <= base_price_of symbol)%Q.
Proof.
  destruct (base_price_integer symbol) as (b & Hb & ->).
  change 0%Q with (inject_Z 0). rewrite <- Zle_Qle. lia.
Qed.

(** [create_sample_data] raises exactly when its first date is before
    [datetime.min]. *)
Lemma create_sample_data_raises rr rb (symbol : string) (days today : Z) (k : nat) :
  ¬ in_calendar days today → create_sample_data rr rb symbol days today k = None.
Proof.
  intros Hout. unfold create_sample_data.
  rewrite walk_raises; [done | | ]; unfold in_calendar in Hout; lia.
Qed.

(** What [create_sample_data] returns, read off the two loops: the second
    loop run over the consecutive days and the prices of the walk. *)
Lemma create_sample_data_loops rr rb (symbol : string) (days today : Z) (k : nat) :
  in_calendar days today →
  ∃ prices : list Q,
    create_sample_data rr rb symbol days today k
      = Some (foldl (bar_step rr rb) ([], (k + (Z.to_nat days - 1))%nat)
                (zip ((λ i, today - (days - Z.of_nat i - 1)) <$> seq 0 (Z.to_nat days))
                     prices))
    ∧ length prices = Z.to_nat days
    ∧ Forall (λ p, (base_price_of symbol * 0.7 <= p)%Q) prices.
Proof.
  intros Hin. unfold create_sample_data.
  destruct (walk_spec rr (base_price_of symbol) days today
              (base_price_not_negative symbol) (Z.to_nat days) k)
    as (prices & -> & Hlen & Hfloor).
  { intros Hn. unfold in_calendar in Hin. lia. }
  by exists prices.
Qed.

Lemma create_sample_data_in_calendar rr rb (symbol : string) (days today : Z)
    (k : nat) :
  is_Some (create_sample_data rr rb symbol days today k) ↔ in_calendar days today.
Proof.
  split.
  - intros [r Hr]. destruct (decide (in_calendar days today)) as [|Hout]; [done|].
    by rewrite create_sample_data_raises in Hr.
  - intros Hin.
    destruct (create_sample_data_loops rr rb symbol days today k Hin) as (? & -> & _).
    done.
Qed.

(** The dates and closes of the synthetic series. *)
Lemma create_sample_data_spec rr rb (symbol : string) (days today : Z) (k : nat)
    (data : list Bar) (k' : nat) :
  create_sample_data rr rb symbol days today k = Some (data, k') →
  ∃ prices : list Q,
    date <$> data = (λ i, today - (days - Z.of_nat i - 1)) <$> seq 0 (Z.to_nat days)
    ∧ close <$> data = round2 <$> prices
    ∧ Forall (λ p, (base_price_of symbol * 0.7 <= p)%Q) prices.
Proof.
  intros Hret.
  assert (in_calendar days today) as Hin
    by (by apply (create_sample_data_in_calendar rr rb symbol days today k)).
  destruct (create_sample_data_loops rr rb symbol days today k Hin)
    as (prices & Heq & Hlen & Hfloor).
  rewrite Heq in Hret.
  destruct (bars_spec rr rb
              (zip ((λ i, today - (days - Z.of_nat i - 1)) <$> seq 0 (Z.to_nat days))
                   prices) [] (k + (Z.to_nat days - 1))%nat)
    as (bars & k2 & Hbars & Hds & Hcs).
  rewrite Hbars, app_nil_l in Hret. injection Hret as <- <-.
  rewrite fst_zip in Hds by (rewrite length_fmap, length_seq; lia).
  rewrite snd_zip in Hcs by (rewrite length_fmap, length_seq; lia).
  by exists prices.
Qed.

Lemma create_sample_data_length rr rb (symbol : string) (days today : Z) (k : nat)
    (data : list Bar) (k' : nat) :
  create_sample_data rr rb symbol days today k = Some (data, k') →
  length data = Z.to_nat days.
Proof.
  intros Hret.
  destruct (create_sample_data_spec rr rb symbol days today k data k' Hret)
    as (? & Hds & _).
  by rewrite <- (length_fmap date), Hds, length_fmap, length_seq.
Qed.

Lemma create_sample_data_sorted rr rb (symbol : string) (days today : Z) (k : nat)
    (data : list Bar) (k' : nat) :
  create_sample_data rr rb symbol days today k = Some (data, k') →
  StronglySorted date_lt data.
Proof.
  intros Hret.
  destruct (create_sample_data_spec rr rb symbol days today k data k' Hret)
    as (? & Hds & _).
  apply sorted_by_date. rewrite Hds.
  apply (StronglySorted_fmap _ lt); [intros; lia | apply seq_strongly_sorted].
Qed.

Lemma create_sample_data_floor rr rb (symbol : string) (days today : Z) (k : nat)
    (data : list Bar) (k' : nat) :
  create_sample_data rr rb symbol days today k = Some (data, k') →
  Forall (λ b, (0.7 * base_price_of symbol <= close b)%Q) data.
Proof.
  intros Hret.
  destruct (create_sample_data_spec rr rb symbol days today k data k' Hret)
    as (prices & _ & Hcs & Hfloor).
  destruct (base_price_integer symbol) as (b & Hb & Hbase).
  apply (Forall_fmap close (λ c, (0.7 * base_price_of symbol <= c)%Q)).
  rewrite Hcs. apply Forall_fmap.
  eapply Forall_impl; [exact Hfloor|]. intros p Hp. simpl in *.
  assert (0.7 * base_price_of symbol == inject_Z (70 * b) / 100)%Q as Hq.
  { rewrite Hbase, inject_Z_mult. field. }
  rewrite Hq. apply round2_keeps_floor. rewrite <- Hq. lra.
Qed.

(** C5 (amended).  [create_sample_data] does not return for every count:
    its first date is [days - 1] days before today, and [datetime] raises
    [OverflowError] when that day is before 0001-01-01.  On a day [today] of
    the calendar and for a count [days >= 0]: when [days] is at most the
    number of days from 0001-01-01 to today, the function returns [days]
    bars, dated on strictly increasing days, every close at or above 0.7
    times the base price of the symbol; for a greater count it raises.  The
    base price of a symbol outside the table is 100. *)
Theorem create_sample_data_shape rr rb (symbol : string) (days today : Z) (k : nat) :
  0 ≤ days → DATE_MIN ≤ today →
  (days ≤ today - DATE_MIN + 1 →
     ∃ data k', create_sample_data rr rb symbol days today k = Some (data, k')
       ∧ Z.of_nat (length data) = days
       ∧ StronglySorted date_lt data
       ∧ Forall (λ b, (0.7 * base_price_of symbol <= close b)%Q) data)
  ∧ (today - DATE_MIN + 1 < days →
     create_sample_data rr rb symbol days today k = None)
  ∧ (base_prices !! symbol = None → base_price_of symbol = 100%Q).
Proof.
  intros Hdays Htoday. repeat split.
  - intros Hfits.
    destruct (proj2 (create_sample_data_in_calendar rr rb symbol days today k))
      as [[data k'] Hret]; [unfold in_calendar; lia|].
    exists data, k'. repeat split; [done | | |].
    + rewrite (create_sample_data_length _ _ _ _ _ _ _ _ Hret). lia.
    + by eapply create_sample_data_sorted.
    + by eapply create_sample_data_floor.
  - intros Hover. apply create_sample_data_raises. unfold in_calendar. lia.
  - intros Hnone. unfold base_price_of. by rewrite Hnone.
Qed.

Lemma create_sample_data_shape_witness :
  (∃ data k',
     create_sample_data random_half randbelow_zero "SPY" 30 20000 0 = Some (data, k')
     ∧ Z.of_nat (length data) = 30
     ∧ StronglySorted date_lt data
     ∧ Forall (λ b, (0.7 * base_price_of "SPY" <= close b)%Q) data).
Proof.
  apply (create_sample_data_shape random_half randbelow_zero "SPY" 30 20000 0);
    unfold DATE_MIN; lia.
Defined.

(** C5 as worded fails: on 2026-11-04 (day 20761) the count 739925 asks for
    a first date before 0001-01-01, and the function raises. *)
Lemma create_sample_data_overflows :
  create_sample_data random_half randbelow_zero "SPY" 739925 20761 0 = None.
Proof.
  apply create_sample_data_raises. unfold in_calendar, DATE_MIN. lia.
Qed.

(** ** PersistentStore *)

Lemma bar_eta (b : Bar) :
  mkBar (date b) (open b) (high b) (low b) (close b) (volume b) = b.
Proof. by destruct b. Qed.

Lemma row_of_quote (s : string) (b : Bar) : row_of ((s, date b), quote_of b) = b.
Proof. apply bar_eta. Qed.

Lemma row_of_date s d q : date (row_of ((s, d), q)) = d.
Proof. by destruct q as [[[[??]?]?]?]. Qed.

Lemma row_of_inj s d1 d2 q1 q2 :
  row_of ((s, d1), q1) = row_of ((s, d2), q2) → d1 = d2 ∧ q1 = q2.
Proof.
  destruct q1 as [[[[??]?]?]?], q2 as [[[[??]?]?]?]. simpl. by intros [= -> -> -> -> -> ->].
Qed.

Lemma same_date_same_bar (l : list Bar) (x y : Bar) :
  NoDup (date <$> l) → x ∈ l → y ∈ l → date x = date y → x = y.
Proof.
  induction l as [|b l IH]; [by intros _ ?%elem_of_nil|].
  rewrite fmap_cons, NoDup_cons. intros [Hb Hl] Hx Hy Hd.
  apply elem_of_cons in Hx as [->|Hx], Hy as [->|Hy]; [done| | |by apply IH].
  - destruct Hb. rewrite Hd. by apply list_elem_of_fmap_2.
  - destruct Hb. rewrite <- Hd. by apply list_elem_of_fmap_2.
Qed.

Lemma delete_symbol_lookup symbol d t : delete_symbol symbol t !! (symbol, d) = None.
Proof. unfold delete_symbol. apply map_lookup_filter_None. right. intros q _ Hne. by apply Hne. Qed.

Lemma insert_rows_other symbol rows t s d :
  s ≠ symbol ∨ d ∉ date <$> rows →
  insert_rows symbol rows t !! (s, d) = t !! (s, d).
Proof.
  unfold insert_rows. revert t. induction rows as [|r rows IH]; intros t Hne; [done|].
  cbn [foldl]. rewrite IH.
  - apply lookup_insert_ne. intros [= <- <-]. destruct Hne as [?|Hd]; [done|].
    apply Hd. rewrite fmap_cons. left.
  - destruct Hne as [?|Hd]; [by left | right]. rewrite fmap_cons in Hd.
    by apply not_elem_of_cons in Hd as [_ ?].
Qed.

Lemma insert_rows_lookup symbol rows t b :
  NoDup (date <$> rows) → b ∈ rows →
  insert_rows symbol rows t !! (symbol, date b) = Some (quote_of b).
Proof.
  unfold insert_rows. revert t. induction rows as [|r rows IH]; intros t Hnd Hb.
  { by apply elem_of_nil in Hb. }
  rewrite fmap_cons, NoDup_cons in Hnd. destruct Hnd as [Hr Hnd].
  cbn [foldl]. apply elem_of_cons in Hb as [->|Hb].
  - fold (insert_rows symbol rows (<[(symbol, date r) := quote_of r]> t)).
    rewrite insert_rows_other by (by right). apply lookup_insert_eq.
  - by apply IH.
Qed.

(** What is stored for [symbol] after a replace is the new series and nothing
    else. *)
Lemma replaceSeries_lookup symbol series t d q :
  NoDup (date <$> series) →
  replaceSeries symbol series t !! (symbol, d) = Some q
  ↔ ∃ b, b ∈ series ∧ date b = d ∧ quote_of b = q.
Proof.
  intros Hnd. unfold replaceSeries. split.
  - intros Hq. destruct (decide (d ∈ date <$> series)) as [Hin|Hout].
    + apply list_elem_of_fmap in Hin as (b & -> & Hb).
      rewrite (insert_rows_lookup _ _ _ _ Hnd Hb) in Hq. exists b. by injection Hq.
    + rewrite insert_rows_other, delete_symbol_lookup in Hq by (by right). done.
  - intros (b & Hb & <- & <-). by apply insert_rows_lookup.
Qed.

Lemma windowed_replaceSeries_perm symbol since series t :
  NoDup (date <$> series) →
  windowed symbol since (replaceSeries symbol series t)
    ≡ₚ filter (λ b, since ≤ date b) series.
Proof.
  intros Hnd. unfold windowed. rewrite merge_sort_Permutation.
  apply NoDup_Permutation.
  - apply NoDup_fmap_2_strong; [|apply NoDup_map_to_list].
    intros [[s1 d1] q1] [[s2 d2] q2] H1 H2 Heq.
    apply elem_of_map_to_list, map_lookup_filter_Some in H1 as [_ [H1 _]].
    apply elem_of_map_to_list, map_lookup_filter_Some in H2 as [_ [H2 _]].
    simpl in H1, H2. subst s1 s2.
    by apply row_of_inj in Heq as [-> ->].
  - apply NoDup_filter. by apply (NoDup_fmap_1 date).
  - intros b. rewrite list_elem_of_fmap, list_elem_of_filter. split.
    + intros ([[s d] q] & -> & Hin).
      apply elem_of_map_to_list, map_lookup_filter_Some in Hin as [Hq [Hs Hd]].
      simpl in Hs, Hd. subst s.
      apply replaceSeries_lookup in Hq as (b & Hb & <- & <-); [|done].
      by rewrite row_of_quote.
    + intros [Hd Hb]. exists ((symbol, date b), quote_of b).
      split; [by rewrite row_of_quote|].
      apply elem_of_map_to_list, map_lookup_filter_Some. split; [|done].
      apply replaceSeries_lookup; eauto.
Qed.

Lemma windowed_sorted symbol since t :
  StronglySorted date_le (windowed symbol since t).
Proof. apply StronglySorted_merge_sort; apply _. Qed.

Lemma sorted_lt_le (l : list Bar) :
  StronglySorted date_lt l → StronglySorted date_le l.
Proof.
  induction 1 as [|b l _ IH Hb]; constructor; [done|].
  eapply Forall_impl; [exact Hb|]. unfold date_lt, date_le. intros; lia.
Qed.

Lemma sorted_le_lt (l : list Bar) :
  NoDup (date <$> l) → StronglySorted date_le l → StronglySorted date_lt l.
Proof.
  intros Hnd Hs. induction Hs as [|b l _ IH Hb]; [constructor|].
  rewrite fmap_cons, NoDup_cons in Hnd. destruct Hnd as [Hnotin Hnd].
  constructor; [by apply IH|].
  apply Forall_forall. intros x Hx.
  rewrite Forall_forall in Hb. specialize (Hb x Hx).
  unfold date_lt, date_le in *.
  assert (date b ≠ date x); [|lia].
  intros Heq. apply Hnotin. rewrite Heq. by apply list_elem_of_fmap_2.
Qed.

Lemma sorted_lt_NoDup (l : list Bar) :
  StronglySorted date_lt l → NoDup (date <$> l).
Proof.
  induction 1 as [|b l _ IH Hb]; [constructor|].
  rewrite fmap_cons. constructor; [|done].
  intros (x & Hd & Hx)%list_elem_of_fmap.
  rewrite Forall_forall in Hb. specialize (Hb x Hx). unfold date_lt in Hb. lia.
Qed.

(** Two date-sorted arrangements of the same bars, all of different dates,
    are the same list. *)
Lemma date_sorted_unique (l1 l2 : list Bar) :
  NoDup (date <$> l2) → l1 ≡ₚ l2 →
  StronglySorted date_le l1 → StronglySorted date_le l2 → l1 = l2.
Proof.
  intros Hnd Hperm H1 H2.
  apply (StronglySorted_unique_strong date_le); [|done..].
  intros x1 x2 Hx1 Hx2 Hle Hge. rewrite Hperm in Hx1.
  apply (same_date_same_bar l2); [done..|]. unfold date_le in *. lia.
Qed.

Lemma filter_sorted_lt (P : Bar → Prop) `{∀ b, Decision (P b)} (l : list Bar) :
  StronglySorted date_lt l → StronglySorted date_lt (filter P l).
Proof.
  induction 1 as [|b l _ IH Hb]; [constructor|].
  rewrite filter_cons. destruct (decide (P b)); [|done].
  constructor; [done|]. apply Forall_forall. intros x [_ Hx]%list_elem_of_filter.
  rewrite Forall_forall in Hb. by apply Hb.
Qed.

(** A replace followed by a window query returns the bars of the new series
    that lie in the window, in date order. *)
Lemma windowed_replaceSeries symbol since series t :
  StronglySorted date_lt series →
  windowed symbol since (replaceSeries symbol series t)
    = filter (λ b, since ≤ date b) series.
Proof.
  intros Hs.
  pose proof (filter_sorted_lt (λ b, since ≤ date b) series Hs) as Hf.
  apply date_sorted_unique.
  - by apply sorted_lt_NoDup.
  - apply windowed_replaceSeries_perm. by apply sorted_lt_NoDup.
  - apply windowed_sorted.
  - by apply sorted_lt_le.
Qed.

Lemma filter_all {A} (P : A → Prop) `{∀ x, Decision (P x)} (l : list A) :
  Forall P l → filter P l = l.
Proof.
  induction 1 as [|x l Hx _ IH]; [done|].
  rewrite filter_cons. destruct (decide (P x)); [by rewrite IH | done].
Qed.

(** C6.  For a series of distinct dates, [replaceSeries] then [windowed] with
    a start date not after any bar returns exactly the bars of the series
    (none of an earlier state), in strictly ascending date order; it is the
    series itself when the series was given in that order. *)
Theorem replaceSeries_windowed (symbol : string) (series : list Bar) (since : Z)
    (t : gmap (string * Z) Quote) :
  NoDup (date <$> series) →
  Forall (λ b, since ≤ date b) series →
  let result := windowed symbol since (replaceSeries symbol series t) in
  result ≡ₚ series
  ∧ StronglySorted date_lt result
  ∧ (StronglySorted date_lt series → result = series).
Proof.
  intros Hnd Hsince result.
  assert (result ≡ₚ series) as Hperm.
  { subst result. rewrite windowed_replaceSeries_perm by done.
    by rewrite filter_all. }
  split; [done|]. split.
  - apply sorted_le_lt; [by rewrite Hperm | apply windowed_sorted].
  - intros Hs. subst result. rewrite windowed_replaceSeries by done.
    by apply filter_all.
Qed.

Lemma replaceSeries_windowed_witness :
  let earlier : gmap (string * Z) Quote :=
    <[("SPY", 9) := quote_of (bar_of_close 9 440)]>
      (<[("QQQ", 11) := quote_of (bar_of_close 11 380)]> ∅) in
  let series := [bar_of_close 10 450; bar_of_close 11 452; bar_of_close 12 449]%Q in
  let result := windowed "SPY" 3 (replaceSeries "SPY" series earlier) in
  (NoDup (date <$> series) ∧ Forall (λ b, 3 ≤ date b) series)
  ∧ result ≡ₚ series
  ∧ StronglySorted date_lt result
  ∧ (StronglySorted date_lt series → result = series).
Proof.
  intros earlier series result.
  assert (NoDup (date <$> series)) as Hnd
    by (apply (bool_decide_unpack _); by vm_compute).
  assert (Forall (λ b, 3 ≤ date b) series) as Hsince
    by (repeat constructor; simpl; lia).
  split; [done|].
  exact (replaceSeries_windowed "SPY" series 3 earlier Hnd Hsince).
Defined.

(** The summaries table: C8 is stated with the pipeline, below. *)

(** ** EphemeralCache *)

Section cache.
Variable random_random : nat → Q.
Variable randbelow : nat → Z → Z.
Variable yf_history : string → string → nat → YfResult.

Let fetch := fetch_yfinance_with_retry random_random randbelow yf_history.

Lemma retry_loop_caches symbol period now n attempt w data w' :
  retry_loop random_random yf_history symbol period now n attempt w = (Some data, w') →
  CACHE w' !! (symbol, period) = Some (data, now).
Proof.
  revert attempt w. induction n as [|n IH]; intros attempt w; simpl; [done|].
  destruct (usable _) as [hist|] eqn:Hu.
  - intros [= <- <-]. simpl. apply lookup_insert_eq.
  - apply IH.
Qed.

(** The fallback asks for at most 365 days, which every day of the clock
    has behind it: [create_sample_data] does not raise there. *)
Lemma fallback_in_calendar (period : string) (clk : Clock) :
  in_calendar (fallback_days period) (local_today clk).
Proof.
  right. unfold fallback_days, local_today, DATE_MIN.
  pose proof (N2Z.is_nonneg (local_day clk)).
  repeat case_decide; lia.
Qed.

(** A computing call returns a series and stamps it with the time it read. *)
Lemma fetch_uncached_caches symbol period n clk w :
  let r := fetch_uncached random_random randbelow yf_history symbol period n clk w in
  ∃ data, r.1 = Some data ∧ CACHE r.2 !! (symbol, period) = Some (data, time_now clk).
Proof.
  unfold fetch_uncached.
  destruct (retry_loop _ _ _ _ _ _ _ _) as [[data|] w'] eqn:Hloop.
  - exists data. split; [done|]. by apply retry_loop_caches in Hloop.
  - destruct (proj2 (create_sample_data_in_calendar random_random randbelow symbol
                       (fallback_days period) (local_today clk) (random_calls w'))
                    (fallback_in_calendar period clk)) as [[data k] ->].
    exists data. split; [done|]. simpl. apply lookup_insert_eq.
Qed.


(** Every call returns a series and leaves it in the cache under
    [(symbol, period)]: a call that computes stamps it with its own time; the
    other calls found an entry younger than the TTL and changed nothing. *)
Lemma fetch_caches symbol period n clk w :
  let r := fetch symbol period n clk w in
  ∃ data ts, r.1 = Some data ∧ CACHE r.2 !! (symbol, period) = Some (data, ts)
    ∧ (ts = time_now clk
       ∨ r.2 = w ∧ CACHE w !! (symbol, period) = Some (data, ts)
         ∧ (time_now clk - ts < CACHE_TTL)%Q).
Proof.
  unfold fetch, fetch_yfinance_with_retry.
  destruct (CACHE w !! (symbol, period)) as [[data ts]|] eqn:Hc.
  - destruct (Qlt_le_dec _ _).
    + exists data, ts. simpl. split; [done|]. split; [done|]. by right.
    + destruct (fetch_uncached_caches symbol period n clk
                  (set_CACHE (delete (symbol, period)) w)) as (data' & Hd & Hts).
      exists data', (time_now clk). split; [done|]. split; [done | by left].
  - destruct (fetch_uncached_caches symbol period n clk w) as (data' & Hd & Hts).
    exists data', (time_now clk). split; [done|]. split; [done | by left].
Qed.

End cache.


(** ** AcquisitionOrchestrator *)

Lemma count_recent_pos (symbol : string) (utc : Z) (t : gmap (string * Z) Quote)
    (d : Z) (q : Quote) :
  t !! (symbol, d) = Some q → utc - 1 ≤ d → (0 < count_recent symbol utc t)%nat.
Proof.
  intros Hq Hd. unfold count_recent.
  enough (size (filter (λ kv : string * Z * Quote, kv.1.1 = symbol ∧ utc - 1 ≤ kv.1.2) t) ≠ 0%nat)
    by lia.
  apply (map_size_ne_0_lookup_2 _ (symbol, d)). exists q.
  by apply map_lookup_filter_Some_2.
Qed.

Lemma count_recent_zero (symbol : string) (utc : Z) (t : gmap (string * Z) Quote) :
  (∀ d, t !! (symbol, d) = None) → count_recent symbol utc t = 0%nat.
Proof.
  intros Hnone. unfold count_recent. apply map_size_empty_iff, map_empty.
  intros [s d]. apply map_lookup_filter_None.
  destruct (decide (s = symbol)) as [->|Hne]; [by left | right].
  intros q _ [Hs _]. by apply Hne.
Qed.

Section orchestrator.
Variable np_sqrt : Q → Q.
Variable random_random : nat → Q.
Variable randbelow : nat → Z → Z.
Variable yf_history : string → string → nat → YfResult.
Variable generate_mock_summary : string → Metrics → string → string.

Let get_prices' := get_prices np_sqrt random_random randbelow yf_history.
Let generate_summary' :=
  generate_summary np_sqrt random_random randbelow yf_history generate_mock_summary.

(** C9.  When the store holds a bar of the normalized symbol dated within
    the last day, [get_prices] answers from the stored rows alone and the
    world it returns is the world it got: the cache is not read or
    changed, no upstream call and no random draw is made, the prices table
    is as before. *)
Theorem fresh_store_is_left_alone symbol range clk w d q :
  let sym := strip (upper symbol) in
  prices w !! (sym, d) = Some q →
  utc_today clk - 1 ≤ d →
  let rows := windowed sym (local_today clk - window_days range) (prices w) in
  get_prices' symbol range clk w =
    (match rows with
     | [] => HTTPException 404
     | _ :: _ => Ok (mkPricesBody sym (value range) rows
                       (present (calculate_metrics np_sqrt rows)))
     end, w).
Proof.
  intros sym Hq Hd rows. unfold get_prices', get_prices. fold sym.
  rewrite bool_decide_eq_true_2 by (by eapply count_recent_pos).
  fold rows. by destruct rows.
Qed.

(** C8.  A stored summary is read back under its key; storing under one
    horizon does not make another horizon of the same symbol and day hit;
    a request whose key is stored returns the stored text and changes
    nothing; and after a successful request, a second one on the same day
    returns that text from the table, the world untouched. *)
Theorem summary_round_trip :
  (∀ t symbol as_of horizon text,
     getSummary symbol as_of horizon (putSummary symbol as_of horizon text t)
       = Some text)
  ∧ (∀ t symbol as_of horizon horizon' text,
       horizon' ≠ horizon →
       getSummary symbol as_of horizon' t = None →
       getSummary symbol as_of horizon' (putSummary symbol as_of horizon text t)
         = None)
  ∧ (∀ symbol range clk w text,
       getSummary (upper symbol) (local_today clk) (value range) (summaries w)
         = Some text →
       generate_summary' symbol range clk w
         = (Ok (mkSummaryBody (upper symbol) text true), w))
  ∧ (∀ symbol range clk1 clk2 w body w1,
       generate_summary' symbol range clk1 w = (Ok body, w1) →
       local_today clk2 = local_today clk1 →
       generate_summary' symbol range clk2 w1
         = (Ok (mkSummaryBody (upper symbol) (summary body) true), w1)).
Proof.
  assert (∀ symbol range clk w text,
    getSummary (upper symbol) (local_today clk) (value range) (summaries w)
      = Some text →
    generate_summary' symbol range clk w
      = (Ok (mkSummaryBody (upper symbol) text true), w)) as Hhit.
  { intros symbol range clk w text Hget.
    unfold generate_summary', generate_summary. by rewrite Hget. }
  split; [|split; [|split]].
  - intros. unfold getSummary, putSummary. apply lookup_insert_eq.
  - intros t symbol as_of horizon horizon' text Hne Hnone.
    unfold getSummary, putSummary in *. rewrite lookup_insert_ne; [done|].
    by intros [= ->].
  - exact Hhit.
  - intros symbol range clk1 clk2 w body w1 Hfirst Htoday.
    apply Hhit. rewrite Htoday.
    unfold generate_summary', generate_summary in Hfirst.
    destruct (getSummary _ _ _ (summaries w)) as [text|] eqn:Hget.
    + by injection Hfirst as <- <-.
    + destruct (get_prices _ _ _ _ _ _ _ _) as [[price_response|code] w'].
      * injection Hfirst as <- <-. simpl.
        unfold getSummary, putSummary. apply lookup_insert_eq.
      * done.
Qed.
End orchestrator.

Lemma fresh_store_is_left_alone_witness :
  let clk := mkClock 1000 20000 20000 in
  let rows := windowed "SPY" (20000 - window_days ONE_MONTH) (prices stored_world) in
  get_prices sqrt_sample random_half randbelow_zero yf_down " spy " ONE_MONTH clk
             stored_world =
    (match rows with
     | [] => HTTPException 404
     | _ :: _ => Ok (mkPricesBody "SPY" (value ONE_MONTH) rows
                       (present (calculate_metrics sqrt_sample rows)))
     end, stored_world).
Proof.
  intros clk rows.
  apply (fresh_store_is_left_alone sqrt_sample random_half randbelow_zero yf_down
           " spy " ONE_MONTH clk stored_world 20000
           (quote_of (bar_of_close 20000 451))).
  - by vm_compute.
  - by vm_compute.
Defined.

Lemma summary_round_trip_witness :
  let clk1 := mkClock 1000 20000 20000 in
  let clk2 := mkClock 5000 20000 20000 in
  let gs := generate_summary sqrt_sample random_half randbelow_zero yf_down
              summary_sample in
  getSummary "SPY" 20000 "1mo" (putSummary "SPY" 20000 "1mo" "text" ∅) = Some "text"
  ∧ getSummary "SPY" 20000 "7d" (putSummary "SPY" 20000 "1mo" "text" ∅) = None
  ∧ ∃ body w1,
      gs "spy" ONE_MONTH clk1 stored_world = (Ok body, w1)
      ∧ cached body = false
      ∧ gs "spy" ONE_MONTH clk2 w1
          = (Ok (mkSummaryBody "SPY" (summary body) true), w1).
Proof.
  intros clk1 clk2 gs.
  pose proof (summary_round_trip sqrt_sample random_half randbelow_zero yf_down
                summary_sample) as (Hget & Hother & _ & Hsecond).
  split; [apply Hget|]. split; [apply Hother; [done | by vm_compute]|].
  assert (∃ body w1, gs "spy" ONE_MONTH clk1 stored_world = (Ok body, w1)
                     ∧ cached body = false) as (body & w1 & Hfirst & Hc).
  { vm_compute. eexists _, _. split; reflexivity. }
  exists body, w1. split; [done|]. split; [done|].
  apply (Hsecond "spy" ONE_MONTH clk1 clk2 stored_world body w1 Hfirst).
  reflexivity.
Defined.

(** ** The fallback, end to end *)

Section fallback.
Variable np_sqrt : Q → Q.
Variable random_random : nat → Q.
Variable randbelow : nat → Z → Z.
Variable yf_history : string → string → nat → YfResult.

Let fetch := fetch_yfinance_with_retry random_random randbelow yf_history.
Let synthetic := create_sample_data random_random randbelow.

(** Two failed attempts: two upstream calls and the one draw of the delay
    before the second. *)
Lemma retry_loop_exhausted symbol period now w :
  (∀ k, usable (yf_history symbol period k) = None) →
  retry_loop random_random yf_history symbol period now 2 0 w =
    (None, mkWorld (CACHE w) (prices w) (summaries w)
                   (S (random_calls w)) (S (S (yf_calls w)))).
Proof.
  intros Hfail. cbn [retry_loop].
  destruct (decide (0 < 0)%nat); [lia|].
  destruct (decide (0 < 1)%nat); [|lia].
  by rewrite !Hfail.
Qed.

Lemma fetch_uncached_exhausted symbol period clk w :
  (∀ k, usable (yf_history symbol period k) = None) →
  let r := fetch_uncached random_random randbelow yf_history symbol period 2 clk w in
  ∃ synth k',
    synthetic symbol (fallback_days period) (local_today clk) (S (random_calls w))
      = Some (synth, k')
    ∧ r.1 = Some synth
    ∧ CACHE r.2 !! (symbol, period) = Some (synth, time_now clk)
    ∧ yf_calls r.2 = (yf_calls w + 2)%nat.
Proof.
  intros Hfail r. subst r. unfold fetch_uncached.
  rewrite retry_loop_exhausted by done. cbn [random_calls].
  unfold synthetic.
  destruct (proj2 (create_sample_data_in_calendar random_random randbelow symbol
                     (fallback_days period) (local_today clk) (S (random_calls w)))
                  (fallback_in_calendar period clk)) as [[data k] ->].
  exists data, k. simpl. split; [done|]. split; [done|].
  split; [apply lookup_insert_eq | lia].
Qed.

Lemma fetch_exhausted symbol period clk w :
  (∀ k, usable (yf_history symbol period k) = None) →
  (∀ data ts, CACHE w !! (symbol, period) = Some (data, ts) →
              (CACHE_TTL <= time_now clk - ts)%Q) →
  let r := fetch symbol period 2 clk w in
  ∃ synth k',
    synthetic symbol (fallback_days period) (local_today clk) (S (random_calls w))
      = Some (synth, k')
    ∧ r.1 = Some synth
    ∧ CACHE r.2 !! (symbol, period) = Some (synth, time_now clk)
    ∧ yf_calls r.2 = (yf_calls w + 2)%nat.
Proof.
  intros Hfail Hstale r. subst r. unfold fetch, fetch_yfinance_with_retry.
  destruct (CACHE w !! (symbol, period)) as [[data ts]|] eqn:Hc.
  - destruct (Qlt_le_dec _ _) as [Hlt|_].
    { exfalso. apply (Qlt_not_le _ _ Hlt). by eapply Hstale. }
    apply (fetch_uncached_exhausted symbol period clk
             (set_CACHE (delete (symbol, period)) w) Hfail).
  - apply (fetch_uncached_exhausted symbol period clk w Hfail).
Qed.

Lemma filter_none {A} (P : A → Prop) `{∀ x, Decision (P x)} (l : list A) :
  Forall (λ x, ¬ P x) l → filter P l = [].
Proof.
  induction 1 as [|x l Hx _ IH]; [done|].
  rewrite filter_cons. by destruct (decide (P x)).
Qed.

(** A window as long as the series holds all of it. *)
Lemma window_holds_series symbol days today k synth k' :
  synthetic symbol days today k = Some (synth, k') →
  filter (λ b, today - days ≤ date b) synth = synth.
Proof.
  intros Hret. apply filter_all.
  destruct (create_sample_data_spec _ _ _ _ _ _ _ _ Hret) as (_ & Hds & _).
  apply (Forall_fmap date (λ d, today - days ≤ d)). rewrite Hds.
  apply Forall_fmap, Forall_forall. intros i _. simpl. lia.
Qed.

(** The 7-day window holds the last 8 of the 30 bars. *)
Lemma window_7d_holds_last_8 symbol today k synth k' :
  synthetic symbol 30 today k = Some (synth, k') →
  filter (λ b, today - 7 ≤ date b) synth = drop 22 synth.
Proof.
  intros Hret.
  destruct (create_sample_data_spec _ _ _ _ _ _ _ _ Hret) as (_ & Hds & _).
  rewrite <- (take_drop 22 synth) at 1. rewrite filter_app.
  rewrite filter_none, filter_all; [done| |].
  - apply (Forall_fmap date (λ d, today - 7 ≤ d)).
    rewrite fmap_drop, Hds. change (Z.to_nat 30) with 30%nat.
    cbn [seq fmap list_fmap drop]. repeat constructor; lia.
  - apply (Forall_fmap date (λ d, ¬ today - 7 ≤ d)).
    rewrite fmap_take, Hds. change (Z.to_nat 30) with 30%nat.
    cbn [seq fmap list_fmap take]. repeat constructor; lia.
Qed.

(** C1 (as the code has it).  The symbol has no stored row, every upstream
    call fails, and the cache has no entry younger than the TTL for the
    key.  Then the generator returns a series of 30 (7d, 1mo), 180 (6mo) or
    365 (1y) bars; the fetch makes its two attempts and returns that
    series, cached under the key with the time of the call; and
    [get_prices] succeeds (no 404, no 500) with the bars of that series
    inside the requested window and the metrics over them: the whole series
    for 1mo, 6mo and 1y, its last 8 bars for 7d. *)
Theorem unreachable_upstream_falls_back symbol range clk w :
  let sym := strip (upper symbol) in
  let period := yf_range_to_period (value range) in
  (∀ d, prices w !! (sym, d) = None) →
  (∀ k, usable (yf_history sym period k) = None) →
  (∀ data ts, CACHE w !! (sym, period) = Some (data, ts) →
              (CACHE_TTL <= time_now clk - ts)%Q) →
  let days :=
    match range with
    | SEVEN_DAYS | ONE_MONTH => 30
    | SIX_MONTHS => 180
    | ONE_YEAR => 365
    end in
  ∃ synth k',
    synthetic sym days (local_today clk) (S (random_calls w)) = Some (synth, k')
    ∧ let rows := match range with SEVEN_DAYS => drop 22 synth | _ => synth end in
      let r := fetch sym period 2 clk w in
      r.1 = Some synth
      ∧ Z.of_nat (length synth) = days
      ∧ CACHE r.2 !! (sym, period) = Some (synth, time_now clk)
      ∧ yf_calls r.2 = (yf_calls w + 2)%nat
      ∧ get_prices np_sqrt random_random randbelow yf_history symbol range clk w
        = (Ok (mkPricesBody sym (value range) rows
                 (present (calculate_metrics np_sqrt rows))),
           set_prices (replaceSeries sym synth) r.2).
Proof.
  intros sym period Hnone Hfail Hstale days.
  assert (fallback_days period = days) as Hdays by (by destruct range).
  destruct (fetch_exhausted sym period clk w Hfail Hstale)
    as (synth & k' & Hsynth & Hdata & Hcache & Hcalls).
  rewrite Hdays in Hsynth. exists synth, k'. split; [exact Hsynth|].
  intros rows r. fold r in Hdata, Hcache, Hcalls.
  assert (length synth = Z.to_nat days) as Hlen
    by (by eapply create_sample_data_length).
  split; [done|]. split; [by destruct range; lia|].
  split; [done|]. split; [done|].
  unfold get_prices. fold sym. fold period.
  rewrite bool_decide_eq_false_2
    by (rewrite count_recent_zero by done; lia).
  fold fetch. fold r. destruct r as [price_data w1]. simpl in Hdata. subst price_data.
  cbn [prices set_prices snd].
  rewrite windowed_replaceSeries by (by eapply create_sample_data_sorted).
  assert (filter (λ b, local_today clk - window_days range ≤ date b) synth = rows)
    as ->.
  { subst rows days. destruct range;
      [by eapply window_7d_holds_last_8 | by eapply window_holds_series..]. }
  assert (0 < length rows)%nat as Hrows.
  { subst rows. destruct range; rewrite ?length_drop, Hlen; subst days; lia. }
  destruct rows; [simpl in Hrows; lia | done].
Qed.
End fallback.

Lemma unreachable_upstream_falls_back_witness :
  let clk := mkClock 1000 20000 20000 in
  let r := fetch_yfinance_with_retry random_half randbelow_zero yf_down
             "AAPL" "1mo" 2 clk empty_world in
  ∃ synth k',
    create_sample_data random_half randbelow_zero "AAPL" 30 20000 1 = Some (synth, k')
    ∧ r.1 = Some synth
    ∧ Z.of_nat (length synth) = 30
    ∧ CACHE r.2 !! ("AAPL", "1mo") = Some (synth, 1000%Q)
    ∧ yf_calls r.2 = 2%nat
    ∧ get_prices sqrt_sample random_half randbelow_zero yf_down " aapl" ONE_MONTH
                 clk empty_world
      = (Ok (mkPricesBody "AAPL" "1mo" synth
               (present (calculate_metrics sqrt_sample synth))),
         set_prices (replaceSeries "AAPL" synth) r.2).
Proof.
  intros clk r.
  apply (unreachable_upstream_falls_back sqrt_sample random_half randbelow_zero
           yf_down " aapl" ONE_MONTH clk empty_world).
  - intros d. apply lookup_empty.
  - intros k. reflexivity.
  - intros data ts H. change (CACHE empty_world) with (∅ : gmap (string * string) (list Bar * Q)) in H.
    by rewrite lookup_empty in H.
Defined.

Lemma returns_unfold np_sqrt (df : list Bar) :
  (2 ≤ length df)%nat →
  returns (present (calculate_metrics np_sqrt df)) =
    let closes := map close (sort_values_date df) in
    percent (Num.div (Some (last_of closes - first_of closes)%Q)
                     (Some (first_of closes))).
Proof. intros Hlen. by rewrite calculate_metrics_unfold. Qed.

Lemma num_eq_distinct (a b : num) (x y : Q) :
  a =n= Some x → b =n= Some y → ¬ (x == y)%Q → ¬ (a =n= b).
Proof.
  destruct a as [p|], b as [q|]; simpl; try done.
  intros Hp Hq Hne Hpq. apply Hne. by rewrite <- Hp, <- Hq.
Qed.

(** C1 as worded fails for the range 7d: the fetch returns 30 synthetic
    bars, the response carries the 8 of them inside the window, and its
    metrics are those of the 8 bars (a return of 1.77 percent here), not of
    the series (7.51 percent). *)
Lemma seven_day_metrics_are_not_over_the_series :
  let clk := mkClock 1000 20000 20000 in
  let r := fetch_yfinance_with_retry random_half randbelow_zero yf_down
             "AAPL" "7d" 2 clk empty_world in
  ∃ synth body w',
    r.1 = Some synth
    ∧ get_prices sqrt_sample random_half randbelow_zero yf_down " aapl" SEVEN_DAYS
                 clk empty_world = (Ok body, w')
    ∧ length synth = 30%nat
    ∧ length (body_data body) = 8%nat
    ∧ ¬ (returns (body_metrics body)
         =n= returns (present (calculate_metrics sqrt_sample synth))).
Proof.
  intros clk r.
  assert (∃ body w',
    get_prices sqrt_sample random_half randbelow_zero yf_down " aapl" SEVEN_DAYS
               clk empty_world = (Ok body, w')
    ∧ length (body_data body) = 8%nat
    ∧ returns (body_metrics body) =n= Some 1.77%Q) as (body & w' & Hgp & Hlen & Hret).
  { vm_compute. eexists _, _. split; [reflexivity|]. split; [reflexivity|].
    by vm_compute. }
  set (synth := default [] r.1).
  assert (r.1 = Some synth) as Hr by (by vm_compute).
  assert (length synth = 30%nat) as Hsynth by (by vm_compute).
  exists synth, body, w'.
  split; [exact Hr|]. split; [exact Hgp|]. split; [exact Hsynth|]. split; [exact Hlen|].
  rewrite (returns_unfold sqrt_sample synth) by (rewrite Hsynth; lia).
  apply (num_eq_distinct _ _ 1.77%Q 7.51%Q Hret); by vm_compute.
Qed.

(** * Further properties of the code *)

(** ** [calculate_metrics] *)

(** The defensive sort makes the order of the rows irrelevant: two frames
    with the same bars, all of different dates, get the same snapshot. *)
Theorem calculate_metrics_order_irrelevant np_sqrt (df1 df2 : list Bar) :
  NoDup (date <$> df1) → df1 ≡ₚ df2 →
  calculate_metrics np_sqrt df1 = calculate_metrics np_sqrt df2.
Proof.
  intros Hnd Hperm.
  assert (sort_values_date df1 = sort_values_date df2) as Hsort.
  { apply date_sorted_unique.
    - by rewrite sort_values_date_perm, <- Hperm.
    - by rewrite !sort_values_date_perm.
    - apply StronglySorted_merge_sort; apply _.
    - apply StronglySorted_merge_sort; apply _. }
  unfold calculate_metrics.
  rewrite <- (Permutation_length Hperm), Hsort. done.
Qed.

Lemma calculate_metrics_order_irrelevant_witness :
  calculate_metrics sqrt_sample
    [bar_of_close 3 95; bar_of_close 1 100; bar_of_close 2 90]%Q
  = calculate_metrics sqrt_sample
      [bar_of_close 1 100; bar_of_close 2 90; bar_of_close 3 95]%Q.
Proof.
  apply calculate_metrics_order_irrelevant.
  - apply (bool_decide_unpack _). by vm_compute.
  - apply (Permutation_cons_append [bar_of_close 1 100; bar_of_close 2 90]%Q).
Defined.

(** *** The drawdown of positive prices *)

Lemma drawdown_of_Some (rs : list Q) :
  let cum := accumulate Qmult (Qplus 1 <$> rs) in
  drawdown_of (Some <$> rs) =
    zip_with (λ c m, Num.div (Num.sub c m) m)
             (Some <$> cum) (Some <$> accumulate Num.qmax cum).
Proof.
  unfold drawdown_of, cumprod, maximum_accumulate, Num.mul, Num.maximum.
  replace (map (Num.add (Some 1%Q)) (Some <$> rs))
    with (Some <$> (Qplus 1 <$> rs)).
  - by rewrite !accumulate_Some.
  - induction rs as [|r rs IH]; [done|]. simpl. f_equal. exact IH.
Qed.

Lemma drawdown_entries_bound (P : Q → Prop) (cs ms : list Q) :
  Forall2 (λ c m, nonzero m ∧ P ((c - m) / m)%Q) cs ms →
  ∃ qs, zip_with (λ c m, Num.div (Num.sub c m) m) (Some <$> cs) (Some <$> ms)
        = Some <$> qs
        ∧ Forall P qs ∧ length qs = length cs.
Proof.
  induction 1 as [|c m cs ms [Hm Hp] _ (qs & Heq & Hall & Hlen)].
  - by exists [].
  - exists (((c - m) / m)%Q :: qs). rewrite !fmap_cons. cbn [zip_with].
    change (Num.sub (Some c) (Some m)) with (Some (c - m)%Q).
    rewrite (div_nonzero _ _ Hm), Heq. repeat split; [by constructor|].
    simpl. by rewrite Hlen.
Qed.

Lemma qmin_cases (P : Q → Prop) (a b : Q) : P a → P b → P (Num.qmin a b).
Proof. intros. unfold Num.qmin. by destruct (Qlt_le_dec b a). Qed.

Lemma np_min_Forall (P : Q → Prop) (qs : list Q) :
  qs ≠ [] → Forall P qs → ∃ q, np_min (Some <$> qs) = Some q ∧ P q.
Proof.
  destruct qs as [|x qs]; [done|]. intros _ Hall.
  apply Forall_cons in Hall as [Hx Hall]. rewrite fmap_cons. cbn [np_min].
  revert x Hx. induction Hall as [|y qs Hy _ IH]; intros x Hx.
  - by exists x.
  - rewrite fmap_cons. cbn [foldl]. apply IH. by apply qmin_cases.
Qed.

Lemma cumulative_pos (a : Q) (fs : list Q) :
  (0 < a)%Q → Forall (λ f, 0 < f)%Q fs →
  Forall (λ c, 0 < c)%Q (accumulate_from Qmult a fs).
Proof.
  intros Ha Hfs. revert a Ha. induction Hfs as [|f fs Hf _ IH]; intros a Ha.
  - constructor.
  - simpl. assert (0 < a * f)%Q by (by apply Qmult_lt_0_compat).
    constructor; [done | by apply IH].
Qed.

Lemma running_max_dominates (m : Q) (cs : list Q) :
  (0 < m)%Q →
  Forall2 (λ c m', (0 < m')%Q ∧ (c <= m')%Q) cs (accumulate_from Num.qmax m cs).
Proof.
  revert m. induction cs as [|c cs IH]; intros m Hm; simpl; [constructor|].
  assert ((0 < Num.qmax m c)%Q ∧ (c <= Num.qmax m c)%Q) as [Hpos Hle].
  { unfold Num.qmax. destruct (Qlt_le_dec m c) as [Hlt|Hge].
    - split; [by apply Qlt_trans with m | apply Qle_refl].
    - done. }
  constructor; [done | by apply IH].
Qed.

Lemma drawdown_ratio_range (c m : Q) :
  (0 < c)%Q → (0 < m)%Q → (c <= m)%Q →
  (-1 < (c - m) / m)%Q ∧ ((c - m) / m <= 0)%Q.
Proof.
  intros Hc Hm Hcm. split.
  - apply Qlt_shift_div_l; [done|]. lra.
  - apply Qle_shift_div_r; [done|]. lra.
Qed.

Lemma daily_returns_pos (closes : list Q) :
  Forall (λ c, 0 < c)%Q closes →
  ∃ rs, daily_returns_of closes = Some <$> rs
        ∧ Forall (λ r, 0 < 1 + r)%Q rs
        ∧ length rs = (length closes - 1)%nat.
Proof.
  induction closes as [|c0 closes IH]; [by exists []|].
  destruct closes as [|c1 rest]; [by exists []|].
  intros Hall. apply Forall_cons in Hall as [H0 Hall].
  destruct (IH Hall) as (rs & Heq & Hrs & Hlen).
  apply Forall_cons in Hall as [H1 _].
  exists (((c1 - c0) / c0)%Q :: rs).
  rewrite daily_returns_cons2, div_nonzero, Heq by (by apply pos_nonzero).
  repeat split.
  - constructor; [by apply first_cumulative_pos | done].
  - simpl in *. lia.
Qed.

(** For positive closes the maximum drawdown is a number in (-1, 0]: no point
    of the cumulative path lies above its running maximum, and none reaches
    a full loss. *)
Theorem max_drawdown_range np_sqrt (df : list Bar) :
  (2 ≤ length df)%nat →
  Forall (λ b, 0 < close b)%Q df →
  ∃ q, max_drawdown (calculate_metrics np_sqrt df) = Some q
       ∧ (-1 < q)%Q ∧ (q <= 0)%Q.
Proof.
  intros Hlen Hpos.
  rewrite (calculate_metrics_unfold _ _ Hlen). cbn zeta. cbn [max_drawdown].
  assert (Forall (λ c, 0 < c)%Q (map close (sort_values_date df))) as Hcs.
  { apply Forall_fmap. by rewrite sort_values_date_perm. }
  destruct (daily_returns_pos _ Hcs) as (rs & -> & Hrs & Hrlen).
  rewrite closes_length in Hrlen.
  destruct rs as [|r0 rs]; [simpl in Hrlen; lia|].
  apply Forall_cons in Hrs as [Hr0 Hrs].
  rewrite drawdown_of_Some. rewrite fmap_cons. cbn [accumulate].
  set (cum := accumulate_from Qmult (1 + r0)%Q (Qplus 1 <$> rs)).
  assert (Forall (λ c, 0 < c)%Q cum) as Hcum.
  { apply cumulative_pos; [done|]. by apply Forall_fmap. }
  destruct (drawdown_entries_bound (λ q, (-1 < q)%Q ∧ (q <= 0)%Q)
              ((1 + r0)%Q :: cum)
              ((1 + r0)%Q :: accumulate_from Num.qmax (1 + r0)%Q cum))
    as (qs & -> & Hqs & Hqlen).
  { constructor.
    - split; [by apply pos_nonzero|]. apply drawdown_ratio_range; [done..|apply Qle_refl].
    - pose proof (running_max_dominates (1 + r0)%Q cum Hr0) as Hdom.
      clear -Hdom Hcum. induction Hdom as [|c m cs ms [Hm Hcm] _ IH]; [constructor|].
      apply Forall_cons in Hcum as [Hc Hcum].
      constructor; [|by apply IH].
      split; [by apply pos_nonzero | by apply drawdown_ratio_range]. }
  destruct (np_min_Forall (λ q, (-1 < q)%Q ∧ (q <= 0)%Q) qs) as (q & -> & Hq);
    [by destruct qs | done |].
  by exists q.
Qed.

Lemma max_drawdown_range_witness :
  ∃ q, max_drawdown (calculate_metrics sqrt_sample
         [bar_of_close 1 100; bar_of_close 2 80; bar_of_close 3 120;
          bar_of_close 4 60]%Q) = Some q
       ∧ (-1 < q)%Q ∧ (q <= 0)%Q.
Proof.
  apply max_drawdown_range.
  - simpl. lia.
  - repeat constructor.
Defined.

Lemma daily_returns_rising (closes : list Q) :
  Forall (λ c, 0 < c)%Q closes → Sorted Qle closes →
  ∃ rs, daily_returns_of closes = Some <$> rs
        ∧ Forall (λ r, 1 <= 1 + r)%Q rs
        ∧ length rs = (length closes - 1)%nat.
Proof.
  induction closes as [|c0 closes IH]; [by exists []|].
  destruct closes as [|c1 rest]; [by exists []|].
  intros Hall Hsorted. apply Forall_cons in Hall as [H0 Hall].
  apply Sorted_inv in Hsorted as [Hsorted Hhd]. apply HdRel_inv in Hhd.
  destruct (IH Hall Hsorted) as (rs & Heq & Hrs & Hlen).
  exists (((c1 - c0) / c0)%Q :: rs).
  rewrite daily_returns_cons2, div_nonzero, Heq by (by apply pos_nonzero).
  repeat split.
  - constructor; [|done].
    assert (0 <= (c1 - c0) / c0)%Q; [|lra].
    apply Qle_shift_div_l; [done|]. lra.
  - simpl in *. lia.
Qed.

Lemma running_max_of_rising (a m : Q) (fs : list Q) :
  (0 < a)%Q → (m == a)%Q → Forall (λ f, 1 <= f)%Q fs →
  Forall2 (λ c m', nonzero m' ∧ ((c - m') / m' == 0)%Q)
          (accumulate_from Qmult a fs)
          (accumulate_from Num.qmax m (accumulate_from Qmult a fs)).
Proof.
  intros Ha Hm Hfs. revert a m Ha Hm.
  induction Hfs as [|f fs Hf _ IH]; intros a m Ha Hm; simpl; [constructor|].
  assert (a <= a * f)%Q as Hrise.
  { rewrite <- (Qmult_1_r a) at 1. apply Qmult_le_l; done. }
  assert (0 < a * f)%Q as Hpos by (by apply Qlt_le_trans with a).
  assert (Num.qmax m (a * f) == a * f)%Q as Hmax.
  { unfold Num.qmax. destruct (Qlt_le_dec m (a * f)) as [_|Hge]; [done|].
    apply Qle_antisym; [by rewrite Hm | done]. }
  constructor.
  - split.
    + intros Hz. rewrite Hmax in Hz. by apply (pos_nonzero _ Hpos).
    + rewrite Hmax. field. split; lra.
  - by apply IH.
Qed.

(** When the closes are positive and never fall from one bar to the next,
    the maximum drawdown is 0. *)
Theorem rising_closes_have_no_drawdown np_sqrt (df : list Bar) :
  (2 ≤ length df)%nat →
  Forall (λ b, 0 < close b)%Q df →
  Sorted Qle (map close (sort_values_date df)) →
  max_drawdown (calculate_metrics np_sqrt df) =n= Some 0%Q.
Proof.
  intros Hlen Hpos Hrise.
  rewrite (calculate_metrics_unfold _ _ Hlen). cbn zeta. cbn [max_drawdown].
  assert (Forall (λ c, 0 < c)%Q (map close (sort_values_date df))) as Hcs.
  { apply Forall_fmap. by rewrite sort_values_date_perm. }
  destruct (daily_returns_rising _ Hcs Hrise) as (rs & -> & Hrs & Hrlen).
  rewrite closes_length in Hrlen.
  destruct rs as [|r0 rs]; [simpl in Hrlen; lia|].
  apply Forall_cons in Hrs as [Hr0 Hrs].
  assert (0 < 1 + r0)%Q as Hp0 by lra.
  rewrite drawdown_of_Some. rewrite fmap_cons. cbn [accumulate].
  set (cum := accumulate_from Qmult (1 + r0)%Q (Qplus 1 <$> rs)).
  destruct (drawdown_entries_bound (λ q, q == 0)%Q
              ((1 + r0)%Q :: cum)
              ((1 + r0)%Q :: accumulate_from Num.qmax (1 + r0)%Q cum))
    as (qs & -> & Hqs & Hqlen).
  { constructor.
    - split; [by apply pos_nonzero|]. field. by apply pos_nonzero.
    - apply running_max_of_rising; [done..|]. by apply Forall_fmap. }
  destruct (np_min_Forall (λ q, q == 0)%Q qs) as (q & -> & Hq);
    [by destruct qs | done |].
  exact Hq.
Qed.

Lemma rising_closes_have_no_drawdown_witness :
  max_drawdown (calculate_metrics sqrt_sample
    [bar_of_close 1 100; bar_of_close 2 100; bar_of_close 3 120]%Q) =n= Some 0%Q.
Proof.
  apply rising_closes_have_no_drawdown.
  - simpl. lia.
  - repeat constructor.
  - vm_compute. repeat constructor; by vm_compute.
Defined.

(** ** More on [calculate_metrics] *)

Lemma last_of_last (l : list Bar) (b : Bar) :
  last_of (map close (l ++ [b])) = close b.
Proof. unfold last_of. rewrite map_app. cbn [map]. by rewrite last_snoc. Qed.

(** Whatever the order of the rows, the snapshot is anchored at the earliest
    and the latest bar by date: the current price is the close of the
    latest, the return runs from the close of the earliest to it. *)
Theorem metrics_anchored_by_date np_sqrt (df : list Bar) :
  (2 ≤ length df)%nat →
  ∃ earliest latest,
    earliest ∈ df ∧ latest ∈ df
    ∧ (∀ b, b ∈ df → date earliest ≤ date b ≤ date latest)
    ∧ current_price (calculate_metrics np_sqrt df) = Some (close latest)
    ∧ returns (calculate_metrics np_sqrt df)
      = Num.div (Some (close latest - close earliest)%Q) (Some (close earliest)).
Proof.
  intros Hlen. rewrite (calculate_metrics_unfold _ _ Hlen). cbn zeta.
  cbn [current_price returns].
  pose proof (sort_values_date_perm df) as Hperm.
  assert (StronglySorted date_le (sort_values_date df)) as Hsorted
    by (apply StronglySorted_merge_sort; apply _).
  pose proof (sort_values_date_length df) as Hslen.
  destruct (sort_values_date df) as [|e rest] eqn:Hs; [simpl in Hslen; lia|].
  destruct (exists_last (l := e :: rest) ltac:(done)) as (front & l & Hsnoc).
  assert (last_of (map close (e :: rest)) = close l) as ->
    by (rewrite Hsnoc; apply last_of_last).
  change (first_of (map close (e :: rest))) with (close e).
  exists e, l.
  assert (l ∈ e :: rest) as Hl by (rewrite Hsnoc; apply elem_of_app; right; left).
  split; [rewrite <- Hperm; left|]. split; [by rewrite <- Hperm|].
  split; [|done].
  intros b Hb. rewrite <- Hperm in Hb. split.
  - apply elem_of_cons in Hb as [->|Hb]; [done|].
    apply StronglySorted_inv in Hsorted as [_ Hall].
    rewrite Forall_forall in Hall. by apply Hall.
  - rewrite Hsnoc in Hb, Hsorted. apply elem_of_app in Hb as [Hb|Hb].
    + eapply (StronglySorted_app_1_elem_of date_le); [done..|left].
    + apply list_elem_of_singleton in Hb as ->. done.
Qed.

Lemma metrics_anchored_by_date_witness :
  ∃ earliest latest,
    date earliest = 1 ∧ date latest = 3
    ∧ current_price (calculate_metrics sqrt_sample
        [bar_of_close 3 95; bar_of_close 1 100; bar_of_close 2 90]%Q)
      = Some (close latest).
Proof.
  destruct (metrics_anchored_by_date sqrt_sample
              [bar_of_close 3 95; bar_of_close 1 100; bar_of_close 2 90]%Q)
    as (e & l & He & Hl & Hrange & Hcur & _); [simpl; lia|].
  exists e, l. split; [|split; [|exact Hcur]].
  - pose proof (Hrange (bar_of_close 1 100) ltac:(right; left)) as [H1 _].
    assert (Forall (λ b, 1 ≤ date b)
              [bar_of_close 3 95; bar_of_close 1 100; bar_of_close 2 90]%Q) as Hall
      by (repeat constructor; simpl; lia).
    rewrite Forall_forall in Hall. specialize (Hall e He). simpl in H1. lia.
  - pose proof (Hrange (bar_of_close 3 95) ltac:(left)) as [_ H3].
    assert (Forall (λ b, date b ≤ 3)
              [bar_of_close 3 95; bar_of_close 1 100; bar_of_close 2 90]%Q) as Hall
      by (repeat constructor; simpl; lia).
    rewrite Forall_forall in Hall. specialize (Hall l Hl). simpl in H3. lia.
Defined.

(** ** [create_sample_data] *)

Lemma round_half_even_upper (x : Q) : round_half_even x ≤ Qfloor x + 1.
Proof.
  unfold round_half_even.
  repeat match goal with |- context [if ?c then _ else _] => destruct c end; lia.
Qed.

Lemma round_half_even_mono (x y : Q) :
  (x <= y)%Q → round_half_even x ≤ round_half_even y.
Proof.
  intros Hxy. pose proof (Qfloor_resp_le _ _ Hxy) as Hf.
  destruct (decide (Qfloor x = Qfloor y)) as [Heq|Hne].
  - unfold round_half_even. rewrite Heq.
    repeat match goal with
    | |- context [Qlt_le_dec ?a ?b] => destruct (Qlt_le_dec a b)
    end; try lia; try lra; destruct (Z.even (Qfloor y)); lia.
  - pose proof (round_half_even_upper x). pose proof (round_half_even_floor y). lia.
Qed.

(** [round(x, 2)] keeps the order of its arguments. *)
Lemma round2_mono (x y : Q) : (x <= y)%Q → (round2 x <= round2 y)%Q.
Proof.
  intros Hxy. unfold round2.
  apply Qmult_le_compat_r; [|done].
  rewrite <- Zle_Qle. apply round_half_even_mono.
  apply Qmult_le_compat_r; done.
Qed.

Lemma base_price_at_least_100 (symbol : string) :
  (100 <= base_price_of symbol)%Q.
Proof.
  unfold base_price_of, base_prices. cbn [list_to_map foldr fst snd uncurry].
  repeat match goal with
  | |- context [ <[?s := _]> _ !! symbol ] =>
      destruct (decide (s = symbol)) as [<-|];
      [rewrite lookup_insert_eq; by vm_compute
      |rewrite lookup_insert_ne by done]
  end.
  rewrite lookup_empty. by vm_compute.
Qed.

Lemma bar_step_ohlc rr rb (data : list Bar) (k : nat) (d : Z) (price : Q) :
  unit_draws rr → below_draws rb → (1 <= price)%Q →
  ∃ b k', bar_step rr rb (data, k) (d, price) = (data ++ [b], k')
    ∧ ohlc_ordered b ∧ 10000000 ≤ volume b ≤ 100000000 ∧ (0 < low b)%Q.
Proof.
  intros Hunit Hbelow Hprice. unfold bar_step, uniform, randint.
  eexists _, _. split; [reflexivity|]. cbn [open high low close volume].
  destruct (Hunit (S k)) as [Hh0 Hh1]. destruct (Hunit (S (S k))) as [Hl0 Hl1].
  destruct (Hunit (S (S (S k)))) as [Ho0 Ho1].
  set (u_high := (1.0 + (1.03 - 1.0) * rr (S k))%Q).
  set (u_low := (0.97 + (1.0 - 0.97) * rr (S (S k)))%Q).
  assert (1 <= u_high)%Q as Hu1 by (subst u_high; lra).
  assert (0.97 <= u_low)%Q as Hu2 by (subst u_low; lra).
  assert (u_low <= 1)%Q as Hu3 by (subst u_low; lra).
  assert (price * u_low <= price)%Q as Hlow by nra.
  assert (price <= price * u_high)%Q as Hhigh by nra.
  assert (0.97 <= price * u_low)%Q as Hlowpos by nra.
  set (span := (price * u_high - price * u_low)%Q) in *.
  assert (0 <= span * rr (S (S (S k))))%Q as Hs0 by (subst span; nra).
  assert (span * rr (S (S (S k))) <= span)%Q as Hs1 by (subst span; nra).
  repeat split.
  - by apply round2_mono.
  - by apply round2_mono.
  - apply round2_mono. lra.
  - apply round2_mono. subst span. lra.
  - pose proof (Hbelow k (100000000 - 10000000 + 1)). lia.
  - pose proof (Hbelow k (100000000 - 10000000 + 1)). lia.
  - apply Qlt_le_trans with (inject_Z 1 / 100)%Q; [done|].
    apply round2_keeps_floor. apply Qle_trans with 0.97%Q; [done | exact Hlowpos].
Qed.

Lemma bars_ohlc rr rb (dps : list (Z * Q)) (data : list Bar) (k : nat) :
  unit_draws rr → below_draws rb → Forall (λ dp, 1 <= dp.2)%Q dps →
  ∃ bars k',
    foldl (bar_step rr rb) (data, k) dps = (data ++ bars, k')
    ∧ Forall (λ b, ohlc_ordered b ∧ 10000000 ≤ volume b ≤ 100000000
                   ∧ (0 < low b)%Q) bars.
Proof.
  intros Hunit Hbelow Hall. revert data k.
  induction Hall as [|[d p] dps Hp _ IH]; intros data k.
  - exists [], k. by rewrite app_nil_r.
  - cbn [foldl].
    destruct (bar_step_ohlc rr rb data k d p Hunit Hbelow Hp) as (b & k1 & -> & Hb).
    destruct (IH (data ++ [b]) k1) as (bars & k2 & -> & Hbars).
    exists (b :: bars), k2. rewrite <- app_assoc. split; [done|]. by constructor.
Qed.

(** With draws in their ranges, every synthetic bar is well formed: its low
    is positive and not above its open and close, its high not below them,
    and its volume lies between 10 and 100 million. *)
Theorem create_sample_data_bars_well_formed rr rb (symbol : string)
    (days today : Z) (k : nat) :
  unit_draws rr → below_draws rb → in_calendar days today →
  ∃ data k',
    create_sample_data rr rb symbol days today k = Some (data, k')
    ∧ Forall (λ b, ohlc_ordered b ∧ 10000000 ≤ volume b ≤ 100000000
                   ∧ (0 < low b)%Q) data.
Proof.
  intros Hunit Hbelow Hin.
  destruct (create_sample_data_loops rr rb symbol days today k Hin)
    as (prices & -> & Hlen & Hfloor).
  destruct (bars_ohlc rr rb
              (zip ((λ i, today - (days - Z.of_nat i - 1)) <$> seq 0 (Z.to_nat days))
                   prices) [] (k + (Z.to_nat days - 1))%nat Hunit Hbelow)
    as (bars & k2 & -> & Hbars).
  - apply Forall_forall. intros [d p] Hdp. simpl.
    apply elem_of_zip_r in Hdp.
    rewrite Forall_forall in Hfloor. specialize (Hfloor p Hdp). simpl in Hfloor.
    pose proof (base_price_at_least_100 symbol). lra.
  - by exists bars, k2.
Qed.

Lemma create_sample_data_bars_well_formed_witness :
  ∃ data k',
    create_sample_data random_half randbelow_zero "TSLA" 30 20000 0 = Some (data, k')
    ∧ Forall (λ b, ohlc_ordered b ∧ 10000000 ≤ volume b ≤ 100000000
                   ∧ (0 < low b)%Q) data.
Proof.
  apply create_sample_data_bars_well_formed.
  - intros k. split; by vm_compute.
  - intros k n Hn. unfold randbelow_zero. lia.
  - right. unfold DATE_MIN. lia.
Defined.

(** A series that does not reach back beyond 0001-01-01 is returned, and
    its bars are dated on consecutive days that end today: bar [i] is dated
    [days - 1 - i] days back, the last one today. *)
Theorem create_sample_data_consecutive_days rr rb (symbol : string)
    (days today : Z) (k : nat) :
  0 < days → days ≤ today - DATE_MIN + 1 →
  ∃ data k',
    create_sample_data rr rb symbol days today k = Some (data, k')
    ∧ (∀ i b, data !! i = Some b → date b = today - (days - 1 - Z.of_nat i))
    ∧ date <$> last data = Some today.
Proof.
  intros Hdays Hfits.
  destruct (proj2 (create_sample_data_in_calendar rr rb symbol days today k))
    as [[data k'] Hret]; [right; lia|].
  exists data, k'. split; [done|].
  destruct (create_sample_data_spec rr rb symbol days today k data k' Hret)
    as (_ & Hds & _).
  split.
  - intros i b Hb.
    assert ((date <$> data) !! i = Some (date b)) as Hd
      by (by rewrite list_lookup_fmap, Hb).
    rewrite Hds, list_lookup_fmap in Hd.
    destruct (seq 0 (Z.to_nat days) !! i) as [j|] eqn:Hj; [|done].
    apply lookup_seq in Hj as [-> _]. simpl in Hd. injection Hd as <-. lia.
  - rewrite <- fmap_last, Hds, fmap_last.
    destruct (Z.to_nat days) as [|n] eqn:Hn; [lia|].
    rewrite seq_S, last_snoc. simpl. f_equal. lia.
Qed.

Lemma create_sample_data_consecutive_days_witness :
  ∃ data k',
    create_sample_data random_half randbelow_zero "SPY" 30 20000 0 = Some (data, k')
    ∧ (∀ i b, data !! i = Some b → date b = 20000 - (30 - 1 - Z.of_nat i))
    ∧ date <$> last data = Some 20000.
Proof.
  apply (create_sample_data_consecutive_days random_half randbelow_zero "SPY"
           30 20000 0); unfold DATE_MIN; lia.
Defined.

Lemma bars_draws rr rb (dps : list (Z * Q)) (data : list Bar) (k : nat) :
  (foldl (bar_step rr rb) (data, k) dps).2 = (k + 4 * length dps)%nat.
Proof.
  revert data k. induction dps as [|[d p] dps IH]; intros data k.
  - simpl. lia.
  - cbn [foldl]. unfold bar_step at 2. simpl. rewrite IH. simpl. lia.
Qed.

(** The generator is asked [days - 1] times for the walk and four times for
    every bar. *)
Lemma create_sample_data_draws rr rb (symbol : string) (days today : Z) (k : nat)
    (data : list Bar) (k' : nat) :
  create_sample_data rr rb symbol days today k = Some (data, k') →
  k' = (k + (Z.to_nat days - 1) + 4 * Z.to_nat days)%nat.
Proof.
  intros Hret.
  assert (in_calendar days today) as Hin
    by (by apply (create_sample_data_in_calendar rr rb symbol days today k)).
  destruct (create_sample_data_loops rr rb symbol days today k Hin)
    as (prices & Heq & Hlen & _).
  rewrite Heq in Hret. injection Hret as Hret.
  apply (f_equal snd) in Hret. simpl in Hret. rewrite <- Hret.
  rewrite bars_draws, length_zip, length_fmap, length_seq, Hlen. lia.
Qed.

(** ** [fetch_yfinance_with_retry] *)

Section fetch_properties.
Variable random_random : nat → Q.
Variable randbelow : nat → Z → Z.
Variable yf_history : string → string → nat → YfResult.

Let fetch := fetch_yfinance_with_retry random_random randbelow yf_history.

Lemma usable_two_bars r data : usable r = Some data → (2 ≤ length data)%nat.
Proof.
  destruct r as [| |hist]; simpl; try done.
  destruct (decide (2 ≤ length hist)%nat); [by intros [= <-] | done].
Qed.

(** What the retry loop can change: the counters, and the cache entry of its
    key when it succeeds. *)
Lemma retry_loop_frame symbol period now n attempt w :
  let r := retry_loop random_random yf_history symbol period now n attempt w in
  prices r.2 = prices w ∧ summaries r.2 = summaries w
  ∧ (∀ key, key ≠ (symbol, period) → CACHE r.2 !! key = CACHE w !! key)
  ∧ (yf_calls w ≤ yf_calls r.2 ≤ yf_calls w + n)%nat
  ∧ (0 < n → yf_calls w < yf_calls r.2)%nat
  ∧ (random_calls w ≤ random_calls r.2 ≤ random_calls w + n)%nat
  ∧ (r.1 = None → CACHE r.2 = CACHE w)
  ∧ (∀ data, r.1 = Some data → (2 ≤ length data)%nat).
Proof.
  revert attempt w. induction n as [|n IH]; intros attempt w.
  { simpl. repeat split; try done; lia. }
  cbn [retry_loop].
  set (w1 := if decide (0 < attempt)%nat
             then set_random_calls
                    (uniform random_random 2%Q 5%Q (random_calls w)).2 w
             else w).
  assert (prices w1 = prices w ∧ summaries w1 = summaries w ∧ CACHE w1 = CACHE w
          ∧ yf_calls w1 = yf_calls w
          ∧ (random_calls w ≤ random_calls w1 ≤ random_calls w + 1)%nat)
    as (Hp1 & Hs1 & Hc1 & Hy1 & Hr1).
  { subst w1. destruct (decide (0 < attempt)%nat); simpl; repeat split; lia. }
  destruct (usable (yf_history symbol period (yf_calls w1))) as [data|] eqn:Hu.
  - simpl. repeat split; try done; try lia.
    + intros key Hkey. rewrite lookup_insert_ne by done. by rewrite Hc1.
    + intros data' [= <-]. by eapply usable_two_bars.
  - destruct (IH (S attempt) (set_yf_calls (S (yf_calls w1)) w1))
      as (Hp & Hs & Hc & Hy & Hy' & Hr & Hnone & Hsome).
    simpl in Hp, Hs, Hc, Hy, Hr, Hy'.
    repeat split; try done; try lia.
    + congruence.
    + congruence.
    + intros key Hkey. rewrite Hc by done. simpl. by rewrite Hc1.
    + intros Hn. rewrite Hnone by done. simpl. exact Hc1.
Qed.

Lemma fallback_days_at_least_30 (period : string) : 30 ≤ fallback_days period.
Proof. unfold fallback_days. repeat case_decide; lia. Qed.

Lemma fetch_uncached_frame symbol period n clk w :
  let r := fetch_uncached random_random randbelow yf_history symbol period n clk w in
  prices r.2 = prices w ∧ summaries r.2 = summaries w
  ∧ (∀ key, key ≠ (symbol, period) → CACHE r.2 !! key = CACHE w !! key)
  ∧ (yf_calls w ≤ yf_calls r.2 ≤ yf_calls w + n)%nat
  ∧ (0 < n → yf_calls w < yf_calls r.2)%nat
  ∧ (random_calls w ≤ random_calls r.2)%nat
  ∧ (∃ data, r.1 = Some data ∧ (2 ≤ length data)%nat).
Proof.
  unfold fetch_uncached.
  pose proof (retry_loop_frame symbol period (time_now clk) n 0 w) as Hloop.
  destruct (retry_loop _ _ _ _ _ _ _ _) as [[data|] w1].
  - simpl in *. destruct Hloop as (? & ? & ? & ? & ? & ? & _ & Hlen).
    repeat split; try done; try lia. exists data. split; [done | by apply Hlen].
  - simpl in Hloop. destruct Hloop as (Hp & Hs & Hc & Hy & Hy' & Hr & Hnone & _).
    destruct (proj2 (create_sample_data_in_calendar random_random randbelow symbol
                       (fallback_days period) (local_today clk) (random_calls w1))
                    (fallback_in_calendar period clk)) as [[data k] Hcsd].
    pose proof (create_sample_data_length _ _ _ _ _ _ _ _ Hcsd) as Hlen.
    pose proof (create_sample_data_draws _ _ _ _ _ _ _ _ Hcsd) as Hk.
    pose proof (fallback_days_at_least_30 period) as Hdays.
    rewrite Hcsd. simpl. repeat split; try done; try lia.
    + intros key Hkey. rewrite lookup_insert_ne by done. by rewrite Hnone.
    + exists data. split; [done | lia].
Qed.

Lemma delete_cache_ok key w : cache_ok w → cache_ok (set_CACHE (delete key) w).
Proof.
  intros Hok key' data ts. simpl. intros Hl.
  apply lookup_delete_Some in Hl as [_ Hl]. by eapply Hok.
Qed.

(** The fetch never hands out fewer than two bars: a frame from upstream is
    accepted only with two bars, the fallback has at least 30, and what the
    cache holds came from one of the two.  The cache keeps that property. *)
Theorem fetch_returns_two_bars symbol period n clk w :
  cache_ok w →
  let r := fetch symbol period n clk w in
  (∃ data, r.1 = Some data ∧ (2 ≤ length data)%nat) ∧ cache_ok r.2.
Proof.
  intros Hok r.
  destruct (fetch_caches random_random randbelow yf_history symbol period n clk w)
    as (cached_data & ts & Hdata0 & Hentry & _).
  fold fetch in Hdata0, Hentry. fold r in Hdata0, Hentry.
  assert (∃ data, r.1 = Some data ∧ (2 ≤ length data)%nat) as Hlen.
  { subst r. unfold fetch, fetch_yfinance_with_retry.
    destruct (CACHE w !! (symbol, period)) as [[data ts0]|] eqn:Hc.
    - destruct (Qlt_le_dec _ _).
      + exists data. split; [done | by eapply Hok].
      + apply fetch_uncached_frame.
    - apply fetch_uncached_frame. }
  split; [done|].
  intros key data ts' Hkey.
  destruct (decide (key = (symbol, period))) as [->|Hne].
  { rewrite Hentry in Hkey. injection Hkey as <- _.
    destruct Hlen as (data & Hdata & Hlen). rewrite Hdata0 in Hdata.
    by injection Hdata as ->. }
  assert (CACHE r.2 !! key = CACHE w !! key ∨
          CACHE r.2 !! key = CACHE (set_CACHE (delete (symbol, period)) w) !! key)
    as Hframe.
  { subst r. unfold fetch, fetch_yfinance_with_retry.
    destruct (CACHE w !! (symbol, period)) as [[data0 ts0]|].
    - destruct (Qlt_le_dec _ _); [by left|].
      right. by apply fetch_uncached_frame.
    - left. by apply fetch_uncached_frame. }
  destruct Hframe as [Heq|Heq]; rewrite Heq in Hkey.
  - by eapply Hok.
  - by eapply (delete_cache_ok _ _ Hok).
Qed.

Lemma fetch_frame_helper symbol period n clk w :
  let r := fetch symbol period n clk w in
  prices r.2 = prices w ∧ summaries r.2 = summaries w
  ∧ (∀ key, key ≠ (symbol, period) → CACHE r.2 !! key = CACHE w !! key)
  ∧ (yf_calls w ≤ yf_calls r.2 ≤ yf_calls w + n)%nat.
Proof.
  intros r. subst r. unfold fetch, fetch_yfinance_with_retry.
  destruct (CACHE w !! (symbol, period)) as [[data ts]|].
  - destruct (Qlt_le_dec _ _); [simpl; repeat split; done || lia|].
    destruct (fetch_uncached_frame symbol period n clk
                (set_CACHE (delete (symbol, period)) w))
      as (Hp & Hs & Hc & Hy & _).
    simpl in Hp, Hs, Hc, Hy. repeat split; try done; try lia.
    intros key Hkey. rewrite Hc by done. simpl. by apply lookup_delete_ne.
  - destruct (fetch_uncached_frame symbol period n clk w) as (Hp & Hs & Hc & Hy & _).
    repeat split; try done; lia.
Qed.

(** The fetch writes neither table, changes no cache entry but the one of
    its key, and contacts the upstream at most [max_retries] times. *)
Theorem fetch_frame symbol period n clk w :
  let r := fetch symbol period n clk w in
  prices r.2 = prices w ∧ summaries r.2 = summaries w
  ∧ (∀ key, key ≠ (symbol, period) → CACHE r.2 !! key = CACHE w !! key)
  ∧ (yf_calls w ≤ yf_calls r.2 ≤ yf_calls w + n)%nat.
Proof. apply fetch_frame_helper. Qed.

(** An entry whose age has reached the TTL, exactly 300 seconds included, is
    not served: the call goes to the upstream and the entry is replaced by
    the new result, stamped with the time of the call. *)
Theorem expired_entry_is_recomputed symbol period n clk w data ts :
  CACHE w !! (symbol, period) = Some (data, ts) →
  (CACHE_TTL <= time_now clk - ts)%Q →
  (0 < n)%nat →
  let r := fetch symbol period n clk w in
  (yf_calls w < yf_calls r.2)%nat
  ∧ ∃ data', r.1 = Some data'
      ∧ CACHE r.2 !! (symbol, period) = Some (data', time_now clk).
Proof.
  intros Hentry Hage Hn r. subst r. unfold fetch, fetch_yfinance_with_retry.
  rewrite Hentry.
  destruct (Qlt_le_dec _ _) as [Hlt|_].
  { exfalso. by apply (Qlt_not_le _ _ Hlt). }
  split; [|apply fetch_uncached_caches].
  destruct (fetch_uncached_frame symbol period n clk
              (set_CACHE (delete (symbol, period)) w))
    as (_ & _ & _ & _ & Hy & _).
  by apply Hy.
Qed.

(** A usable frame on the first attempt is returned as it is and cached;
    one upstream call, no delay drawn.  When the first attempt fails and the
    second succeeds, the second frame is returned after one drawn delay. *)
Theorem fetch_from_upstream symbol period n clk w hist :
  CACHE w !! (symbol, period) = None →
  (2 ≤ length hist)%nat →
  (yf_history symbol period (yf_calls w) = YfFrame hist →
   fetch symbol period (S n) clk w =
     (Some hist, set_CACHE (insert (symbol, period) (hist, time_now clk))
                   (set_yf_calls (S (yf_calls w)) w)))
  ∧ (usable (yf_history symbol period (yf_calls w)) = None →
     yf_history symbol period (S (yf_calls w)) = YfFrame hist →
     fetch symbol period (S (S n)) clk w =
       (Some hist, set_CACHE (insert (symbol, period) (hist, time_now clk))
                     (set_yf_calls (S (S (yf_calls w)))
                        (set_random_calls (S (random_calls w)) w)))).
Proof.
  intros Hmiss Hlen.
  assert (usable (YfFrame hist) = Some hist) as Hu.
  { simpl. by destruct (decide (2 ≤ length hist)%nat). }
  split.
  - intros Hyf. unfold fetch, fetch_yfinance_with_retry, fetch_uncached.
    rewrite Hmiss. cbn [retry_loop].
    destruct (decide (0 < 0)%nat); [lia|]. by rewrite Hyf, Hu.
  - intros Hfail Hyf. unfold fetch, fetch_yfinance_with_retry, fetch_uncached.
    rewrite Hmiss. cbn [retry_loop].
    destruct (decide (0 < 0)%nat); [lia|]. rewrite Hfail.
    destruct (decide (0 < 1)%nat); [|lia]. simpl. by rewrite Hyf, Hu.
Qed.
End fetch_properties.

Lemma fetch_returns_two_bars_witness :
  let r := fetch_yfinance_with_retry random_half randbelow_zero yf_down
             "SPY" "6mo" 2 (mkClock 1000 20000 20000) empty_world in
  (∃ data, r.1 = Some data ∧ (2 ≤ length data)%nat) ∧ cache_ok r.2.
Proof.
  apply fetch_returns_two_bars.
  intros key data ts H. change (CACHE empty_world) with (∅ : gmap (string * string) (list Bar * Q)) in H.
  by rewrite lookup_empty in H.
Defined.

Lemma fetch_frame_witness :
  let r := fetch_yfinance_with_retry random_half randbelow_zero yf_up
             "SPY" "1mo" 2 (mkClock 1000 20000 20000) stored_world in
  prices r.2 = prices stored_world
  ∧ CACHE r.2 !! ("QQQ", "1mo") = CACHE stored_world !! ("QQQ", "1mo")
  ∧ (yf_calls r.2 ≤ 2)%nat.
Proof.
  intros r.
  destruct (fetch_frame random_half randbelow_zero yf_up "SPY" "1mo" 2
              (mkClock 1000 20000 20000) stored_world) as (Hp & _ & Hc & Hy).
  fold r in Hp, Hc, Hy. split; [exact Hp|]. split; [by apply Hc|].
  change (yf_calls stored_world) with 0%nat in Hy. lia.
Defined.

Lemma expired_entry_is_recomputed_witness :
  let w := set_CACHE (insert ("SPY", "1mo") ([bar_of_close 1 1; bar_of_close 2 2], 700%Q))
             empty_world in
  let clk := mkClock 1000 20000 20000 in
  let r := fetch_yfinance_with_retry random_half randbelow_zero yf_up
             "SPY" "1mo" 2 clk w in
  (yf_calls w < yf_calls r.2)%nat
  ∧ ∃ data', r.1 = Some data'
      ∧ CACHE r.2 !! ("SPY", "1mo") = Some (data', 1000%Q).
Proof.
  intros w clk r.
  apply (expired_entry_is_recomputed random_half randbelow_zero yf_up
           "SPY" "1mo" 2 clk w [bar_of_close 1 1; bar_of_close 2 2] 700%Q).
  - by vm_compute.
  - by vm_compute.
  - lia.
Defined.

Lemma fetch_from_upstream_witness :
  let hist := [bar_of_close 19999 100; bar_of_close 20000 101] in
  let clk := mkClock 1000 20000 20000 in
  fetch_yfinance_with_retry random_half randbelow_zero yf_up "SPY" "1mo" 2 clk
    empty_world
  = (Some hist, set_CACHE (insert ("SPY", "1mo") (hist, 1000%Q))
                  (set_yf_calls 1 empty_world)).
Proof.
  intros hist clk.
  apply (fetch_from_upstream random_half randbelow_zero yf_up "SPY" "1mo" 1 clk
           empty_world hist).
  - by vm_compute.
  - simpl. lia.
  - reflexivity.
Defined.

(** ** [get_prices] and its callers *)

Lemma delete_symbol_other (symbol s : string) (d : Z) (t : gmap (string * Z) Quote) :
  s ≠ symbol → delete_symbol symbol t !! (s, d) = t !! (s, d).
Proof.
  intros Hne. unfold delete_symbol.
  destruct (t !! (s, d)) as [q|] eqn:Hq.
  - by apply map_lookup_filter_Some_2.
  - apply map_lookup_filter_None. by left.
Qed.

Lemma replaceSeries_other (symbol s : string) (d : Z) (rows : list Bar)
    (t : gmap (string * Z) Quote) :
  s ≠ symbol → replaceSeries symbol rows t !! (s, d) = t !! (s, d).
Proof.
  intros Hne. unfold replaceSeries.
  rewrite insert_rows_other by (by left). by apply delete_symbol_other.
Qed.

Lemma windowed_elem (symbol : string) (start : Z) (t : gmap (string * Z) Quote)
    (b : Bar) :
  b ∈ windowed symbol start t
  ↔ t !! (symbol, date b) = Some (quote_of b) ∧ start ≤ date b.
Proof.
  unfold windowed. rewrite merge_sort_Permutation, list_elem_of_fmap. split.
  - intros ([[s d] q] & -> & Hin).
    apply elem_of_map_to_list, map_lookup_filter_Some in Hin as [Hq [Hs Hd]].
    simpl in Hs, Hd. subst s. rewrite row_of_date.
    destruct q as [[[[o h] l] c] v]. by simpl.
  - intros [Hq Hd]. exists ((symbol, date b), quote_of b).
    split; [by rewrite row_of_quote|].
    by apply elem_of_map_to_list, map_lookup_filter_Some.
Qed.

Lemma windowed_NoDup_dates (symbol : string) (start : Z)
    (t : gmap (string * Z) Quote) :
  NoDup (date <$> windowed symbol start t).
Proof.
  unfold windowed. rewrite merge_sort_Permutation.
  rewrite <- list_fmap_compose.
  apply NoDup_fmap_2_strong; [|apply NoDup_map_to_list].
  intros [[s1 d1] q1] [[s2 d2] q2] H1 H2. cbn [compose]. rewrite !row_of_date.
  intros <-.
  apply elem_of_map_to_list, map_lookup_filter_Some in H1 as [H1 [Hs1 _]].
  apply elem_of_map_to_list, map_lookup_filter_Some in H2 as [H2 [Hs2 _]].
  simpl in Hs1, Hs2. subst s1 s2. rewrite H1 in H2. by injection H2 as <-.
Qed.

Lemma windowed_strictly_sorted (symbol : string) (start : Z)
    (t : gmap (string * Z) Quote) :
  StronglySorted date_lt (windowed symbol start t).
Proof. apply sorted_le_lt; [apply windowed_NoDup_dates | apply windowed_sorted]. Qed.

Section get_prices_properties.
Variable np_sqrt : Q → Q.
Variable random_random : nat → Q.
Variable randbelow : nat → Z → Z.
Variable yf_history : string → string → nat → YfResult.
Variable generate_mock_summary : string → Metrics → string → string.
Variable csv_text : string → TimeRange → Clock → PricesBody → string.

Let get_prices' := get_prices np_sqrt random_random randbelow yf_history.

(** [get_prices] in two steps: refresh the store unless it is fresh, then
    answer from the store.  The fetch returns a series (its fallback does
    not raise), so the 500 branch is not taken. *)
Lemma get_prices_unfold symbol range clk w :
  let sym := strip (upper symbol) in
  let f := fetch_yfinance_with_retry random_random randbelow yf_history sym
             (yf_range_to_period (value range)) 2 clk w in
  ∃ data, f.1 = Some data ∧
  let w' := if bool_decide (0 < count_recent sym (utc_today clk) (prices w))%nat
            then w else set_prices (replaceSeries sym data) f.2 in
  let rows := windowed sym (local_today clk - window_days range) (prices w') in
  get_prices' symbol range clk w =
    (match rows with
     | [] => HTTPException 404
     | _ :: _ => Ok (mkPricesBody sym (value range) rows
                       (present (calculate_metrics np_sqrt rows)))
     end, w').
Proof.
  intros sym f.
  destruct (fetch_caches random_random randbelow yf_history sym
              (yf_range_to_period (value range)) 2 clk w) as (data & _ & Hdata & _).
  fold f in Hdata. exists data. split; [exact Hdata|].
  intros w' rows. subst w' rows. unfold get_prices', get_prices. fold sym. fold f.
  destruct (bool_decide _).
  - by destruct (windowed _ _ _).
  - destruct f as [data' w1]. simpl in Hdata. subst data'. cbn [fst snd].
    by destruct (windowed _ _ _).
Qed.

Lemma get_prices_response symbol range clk w :
  let sym := strip (upper symbol) in
  let r := get_prices' symbol range clk w in
  let rows := windowed sym (local_today clk - window_days range) (prices r.2) in
  r.1 = match rows with
        | [] => HTTPException 404
        | _ :: _ => Ok (mkPricesBody sym (value range) rows
                          (present (calculate_metrics np_sqrt rows)))
        end.
Proof.
  intros sym r rows. subst r rows.
  destruct (get_prices_unfold symbol range clk w) as (data & _ & ->). done.
Qed.

Lemma get_prices_world symbol range clk w :
  let sym := strip (upper symbol) in
  let r := get_prices' symbol range clk w in
  summaries r.2 = summaries w
  ∧ (∀ s d, s ≠ sym → prices r.2 !! (s, d) = prices w !! (s, d))
  ∧ (yf_calls w ≤ yf_calls r.2 ≤ yf_calls w + 2)%nat.
Proof.
  intros sym r. subst r.
  destruct (get_prices_unfold symbol range clk w) as (data & _ & ->).
  fold sym. cbn [snd].
  destruct (bool_decide _); [repeat split; done || lia|].
  destruct (fetch_frame_helper random_random randbelow yf_history sym
              (yf_range_to_period (value range)) 2 clk w) as (Hp & Hs & _ & Hy).
  cbn [summaries prices yf_calls set_prices]. repeat split; try done; try lia.
  intros s d Hne. rewrite replaceSeries_other by done. by rewrite Hp.
Qed.

(** The answer of [get_prices] is read off the store as the call leaves it:
    404 when no stored bar of the symbol lies in the window, otherwise
    exactly the stored bars of the window, strictly ascending by date, with
    the metrics computed over them. *)
Theorem get_prices_answers_from_store symbol range clk w :
  let sym := strip (upper symbol) in
  let start := local_today clk - window_days range in
  let r := get_prices' symbol range clk w in
  let rows := windowed sym start (prices r.2) in
  r.1 = match rows with
        | [] => HTTPException 404
        | _ :: _ => Ok (mkPricesBody sym (value range) rows
                          (present (calculate_metrics np_sqrt rows)))
        end
  ∧ StronglySorted date_lt rows
  ∧ (∀ b, b ∈ rows ↔ prices r.2 !! (sym, date b) = Some (quote_of b) ∧ start ≤ date b).
Proof.
  intros sym start r rows. split; [apply get_prices_response|].
  split; [apply windowed_strictly_sorted|]. intros b. apply windowed_elem.
Qed.

(** [get_prices] never writes the summaries, never touches the rows of
    another symbol, and makes at most two upstream calls. *)
Theorem get_prices_frame symbol range clk w :
  let sym := strip (upper symbol) in
  let r := get_prices' symbol range clk w in
  summaries r.2 = summaries w
  ∧ (∀ s d, s ≠ sym → prices r.2 !! (s, d) = prices w !! (s, d))
  ∧ (yf_calls w ≤ yf_calls r.2 ≤ yf_calls w + 2)%nat.
Proof. apply get_prices_world. Qed.

Lemma create_sample_data_has_today (symbol : string) (days today : Z) (k : nat)
    (data : list Bar) (k' : nat) :
  create_sample_data random_random randbelow symbol days today k = Some (data, k') →
  0 < days →
  ∃ b, b ∈ data ∧ date b = today.
Proof.
  intros Hret Hdays.
  destruct (create_sample_data_spec _ _ _ _ _ _ _ _ Hret) as (_ & Hds & _).
  assert (today ∈ date <$> data) as Hin.
  { rewrite Hds. apply list_elem_of_fmap. exists (Z.to_nat days - 1)%nat.
    split; [lia|]. apply elem_of_seq. lia. }
  apply list_elem_of_fmap in Hin as (b & -> & Hb). by exists b.
Qed.

(** After a fallback the synthetic rows make the store fresh: on the same
    clock reading (with the UTC day at most one day ahead of the local day)
    a further request for any range changes nothing, so it makes no upstream
    call, and a repeated request gets the same answer. *)
Theorem fallback_is_served_from_store symbol range clk w :
  let sym := strip (upper symbol) in
  let period := yf_range_to_period (value range) in
  (∀ d, prices w !! (sym, d) = None) →
  (∀ k, usable (yf_history sym period k) = None) →
  (∀ data ts, CACHE w !! (sym, period) = Some (data, ts) →
              (CACHE_TTL <= time_now clk - ts)%Q) →
  utc_today clk - 1 ≤ local_today clk →
  let r1 := get_prices' symbol range clk w in
  (∀ range', (get_prices' symbol range' clk r1.2).2 = r1.2)
  ∧ get_prices' symbol range clk r1.2 = r1.
Proof.
  intros sym period Hnone Hfail Hstale Hclock r1.
  assert (0 < count_recent sym (utc_today clk) (prices r1.2))%nat as Hfresh.
  { subst r1.
    destruct (get_prices_unfold symbol range clk w) as (data & Hfetch & ->).
    fold sym. cbn [snd].
    rewrite bool_decide_eq_false_2 by (rewrite count_recent_zero by done; lia).
    destruct (fetch_exhausted random_random randbelow yf_history sym period clk w
                Hfail Hstale) as (synth & k' & Hsynth & Hdata & _).
    fold sym period in Hfetch. rewrite Hdata in Hfetch. injection Hfetch as <-.
    cbn [prices set_prices].
    destruct (create_sample_data_has_today _ _ _ _ _ _ Hsynth) as (b & Hb & Hd).
    { pose proof (fallback_days_at_least_30 period). lia. }
    apply (count_recent_pos _ _ _ (date b) (quote_of b)); [|lia].
    apply replaceSeries_lookup; [|by exists b].
    by eapply sorted_lt_NoDup, create_sample_data_sorted. }
  assert (∀ range', get_prices' symbol range' clk r1.2 =
    (match windowed sym (local_today clk - window_days range') (prices r1.2) with
     | [] => HTTPException 404
     | rows => Ok (mkPricesBody sym (value range') rows
                     (present (calculate_metrics np_sqrt rows)))
     end, r1.2)) as Hagain.
  { intros range'.
    destruct (get_prices_unfold symbol range' clk r1.2) as (data & _ & ->).
    fold sym. rewrite bool_decide_eq_true_2 by done. by destruct (windowed _ _ _). }
  split.
  - intros range'. by rewrite Hagain.
  - rewrite Hagain. pose proof (get_prices_response symbol range clk w) as Hresp.
    cbn zeta in Hresp. fold sym in Hresp. fold r1 in Hresp.
    destruct r1 as [resp w1]. simpl in *. rewrite Hresp.
    by destruct (windowed _ _ _).
Qed.

Let generate_summary' :=
  generate_summary np_sqrt random_random randbelow yf_history generate_mock_summary.
Let export_data' :=
  export_data np_sqrt random_random randbelow yf_history csv_text.

(** How the callers answer when [get_prices] finds no data: the export
    answers 500 and an uncached summary request 400, nothing is stored as a
    summary, and neither caller ever passes the 404 on. *)
Theorem callers_hide_not_found symbol range clk w :
  let p := get_prices' symbol range clk w in
  (∀ code, p.1 = HTTPException code →
     export_data' symbol range clk w = (HTTPException 500, p.2))
  ∧ (∀ code, p.1 = HTTPException code →
       getSummary (upper symbol) (local_today clk) (value range) (summaries w) = None →
       generate_summary' symbol range clk w = (HTTPException 400, p.2)
       ∧ summaries p.2 = summaries w)
  ∧ (∀ code, (export_data' symbol range clk w).1 = HTTPException code → code = 500)
  ∧ (∀ code, (generate_summary' symbol range clk w).1 = HTTPException code →
       code = 400).
Proof.
  intros p. pose proof (get_prices_world symbol range clk w) as (Hs & _).
  fold p in Hs. subst p.
  unfold export_data', export_data, generate_summary', generate_summary, get_prices' in *.
  destruct (get_prices _ _ _ _ _ _ _ _) as [[body|code0] w1]; simpl in *.
  - split; [done|]. split; [done|]. split; [done|].
    intros code. by destruct (getSummary _ _ _ _).
  - split; [done|]. split; [|split].
    + intros code _ Hget. by rewrite Hget.
    + by intros code [= <-].
    + intros code. destruct (getSummary _ _ _ _); simpl; [done | by intros [= <-]].
Qed.
End get_prices_properties.

Lemma get_prices_frame_witness :
  let r := get_prices sqrt_sample random_half randbelow_zero yf_up "qqq" ONE_MONTH
             (mkClock 1000 20000 20000) stored_world in
  summaries r.2 = summaries stored_world
  ∧ prices r.2 !! ("SPY", 20000) = prices stored_world !! ("SPY", 20000)
  ∧ (yf_calls r.2 ≤ 2)%nat.
Proof.
  intros r.
  destruct (get_prices_frame sqrt_sample random_half randbelow_zero yf_up
              "qqq" ONE_MONTH (mkClock 1000 20000 20000) stored_world)
    as (Hs & Hp & Hy).
  fold r in Hs, Hp, Hy. split; [exact Hs|]. split.
  - apply Hp. by vm_compute.
  - change (yf_calls stored_world) with 0%nat in Hy. lia.
Defined.

Lemma fallback_is_served_from_store_witness :
  let clk := mkClock 1000 20000 20000 in
  let r1 := get_prices sqrt_sample random_half randbelow_zero yf_down " aapl"
              SEVEN_DAYS clk empty_world in
  (∀ range', (get_prices sqrt_sample random_half randbelow_zero yf_down " aapl"
                range' clk r1.2).2 = r1.2)
  ∧ get_prices sqrt_sample random_half randbelow_zero yf_down " aapl"
      SEVEN_DAYS clk r1.2 = r1.
Proof.
  intros clk r1.
  apply (fallback_is_served_from_store sqrt_sample random_half randbelow_zero
           yf_down " aapl" SEVEN_DAYS clk empty_world).
  - intros d. apply lookup_empty.
  - intros k. reflexivity.
  - intros data ts H.
    change (CACHE empty_world) with (∅ : gmap (string * string) (list Bar * Q)) in H.
    by rewrite lookup_empty in H.
  - unfold local_today. simpl. lia.
Defined.

Lemma callers_hide_not_found_witness :
  let clk := mkClock 1000 20100 20100 in
  let p := get_prices sqrt_sample random_half randbelow_zero yf_up "spy"
             SEVEN_DAYS clk empty_world in
  export_data sqrt_sample random_half randbelow_zero yf_up (λ _ _ _ _, "csv")
              "spy" SEVEN_DAYS clk empty_world = (HTTPException 500, p.2)
  ∧ generate_summary sqrt_sample random_half randbelow_zero yf_up summary_sample
      "spy" SEVEN_DAYS clk empty_world = (HTTPException 400, p.2).
Proof.
  intros clk p.
  destruct (callers_hide_not_found sqrt_sample random_half randbelow_zero yf_up
              summary_sample (λ _ _ _ _, "csv") "spy" SEVEN_DAYS clk empty_world)
    as (Hexport & Hsummary & _).
  fold p in Hexport, Hsummary.
  assert (p.1 = HTTPException 404) as Hp by (by vm_compute).
  split.
  - exact (Hexport 404 Hp).
  - apply (Hsummary 404 Hp). by vm_compute.
Defined.

(** ** [search_symbols] *)

Lemma upper_ascii_idemp (c : ascii) : upper_ascii (upper_ascii c) = upper_ascii c.
Proof. destruct c as [[] [] [] [] [] [] [] []]; reflexivity. Qed.

Lemma upper_idemp (s : string) : upper (upper s) = upper s.
Proof. induction s as [|c s IH]; simpl; [done|]. by rewrite upper_ascii_idemp, IH. Qed.

Lemma startswith_spec (p s : string) :
  startswith p s = true ↔ ∃ post, s = p +:+ post.
Proof.
  revert s. induction p as [|a p IH]; intros s; simpl.
  - split; [by exists s | done].
  - destruct s as [|b s].
    + split; [done | by intros [post [=]]].
    + destruct (decide (a = b)) as [->|Hne].
      * rewrite IH. split; [intros [post ->]; by exists post|].
        intros [post [= ->]]. by exists post.
      * split; [done|]. intros [post [= ? _]]. by destruct Hne.
Qed.

(** [str_in] is Python's substring test. *)
Lemma str_in_spec (sub s : string) :
  str_in sub s = true ↔ ∃ pre post, s = pre +:+ sub +:+ post.
Proof.
  induction s as [|c s IH].
  - cbn [str_in]. rewrite orb_false_r, startswith_spec. split.
    + intros [post Hs]. by exists "", post.
    + intros ([|? pre] & post & Hs); [by exists post | done].
  - cbn [str_in]. rewrite orb_true_iff, startswith_spec, IH. split.
    + intros [[post Hs] | (pre & post & ->)].
      * by exists "", post.
      * by exists (String c pre), post.
    + intros ([|c' pre] & post & Hs).
      * left. by exists post.
      * right. injection Hs as -> ->. by exists pre, post.
Qed.

(** The search ignores the case of the query; it returns at most ten
    entries, all from the table and in its order; and every entry returned
    has the upper-cased query inside its symbol or inside its upper-cased
    name (the prefix test of the code adds nothing to that). *)
Theorem search_symbols_sound (query : string) :
  search_symbols (upper query) = search_symbols query
  ∧ (length (search_symbols query) ≤ 10)%nat
  ∧ search_symbols query `sublist_of` common_symbols
  ∧ (∀ symbol name, (symbol, name) ∈ search_symbols query →
       (∃ pre post, symbol = pre +:+ upper query +:+ post)
       ∨ (∃ pre post, upper name = pre +:+ upper query +:+ post)).
Proof.
  unfold search_symbols. rewrite upper_idemp. split; [done|]. split; [|split].
  - rewrite length_take. lia.
  - trans (filter (λ entry, symbol_matches (upper query) entry = true) common_symbols).
    + apply sublist_take.
    + apply sublist_filter.
  - intros symbol name Hin.
    apply elem_of_take in Hin as (i & Hin & _).
    apply list_elem_of_lookup_2, list_elem_of_filter in Hin as [Hm _].
    unfold symbol_matches in Hm. cbn [fst snd] in Hm.
    apply orb_true_iff in Hm as [Hm|Hm].
    + apply orb_true_iff in Hm as [Hm|Hm]; [left | right]; by apply str_in_spec.
    + left. apply startswith_spec in Hm as [post ->]. by exists "", post.
Qed.

(** A query that occurs in fewer than ten entries finds all of them: a
    table entry whose symbol contains the upper-cased query is returned. *)
Theorem search_symbols_finds (query symbol name : string) :
  (symbol, name) ∈ common_symbols →
  (∃ pre post, symbol = pre +:+ upper query +:+ post) →
  (length (filter (λ entry, symbol_matches (upper query) entry = true)
                  common_symbols) ≤ 10)%nat →
  (symbol, name) ∈ search_symbols query.
Proof.
  intros Hin Hsub Hfew. unfold search_symbols.
  rewrite take_ge by done. apply list_elem_of_filter. split; [|done].
  unfold symbol_matches. cbn [fst snd].
  apply str_in_spec in Hsub. by rewrite Hsub.
Qed.

Lemma search_symbols_sound_witness :
  (∃ pre post, "NVDA" = pre +:+ upper "nv" +:+ post)
  ∨ (∃ pre post, upper "NVIDIA Corporation" = pre +:+ upper "nv" +:+ post).
Proof.
  apply (proj2 (proj2 (proj2 (search_symbols_sound "nv")))).
  apply list_elem_of_In. vm_compute. auto 20.
Defined.

Lemma search_symbols_finds_witness :
  ("BRK-B", "Berkshire Hathaway Inc. Class B") ∈ search_symbols "brk".
Proof.
  apply search_symbols_finds.
  - apply list_elem_of_In. vm_compute. auto 20.
  - exists "", "-B". reflexivity.
  - vm_compute. lia.
Defined.

Section generate_summary_properties.
Variable np_sqrt : Q → Q.
Variable random_random : nat → Q.
Variable randbelow : nat → Z → Z.
Variable yf_history : string → string → nat → YfResult.
Variable generate_mock_summary : string → Metrics → string → string.

Let generate_summary' :=
  generate_summary np_sqrt random_random randbelow yf_history generate_mock_summary.

(** A summary request changes at most the summary of its own key and the
    price rows of its own symbol, and the text of a successful answer is the
    text the table holds under the key afterwards. *)
Theorem generate_summary_frame symbol range clk w :
  let r := generate_summary' symbol range clk w in
  (∀ key, key ≠ (upper symbol, local_today clk, value range) →
          summaries r.2 !! key = summaries w !! key)
  ∧ (∀ s d, s ≠ strip (upper symbol) → prices r.2 !! (s, d) = prices w !! (s, d))
  ∧ (∀ body, r.1 = Ok body →
       getSummary (upper symbol) (local_today clk) (value range) (summaries r.2)
         = Some (summary body)).
Proof.
  intros r. subst r. unfold generate_summary', generate_summary.
  destruct (getSummary _ _ _ (summaries w)) as [text|] eqn:Hget.
  { cbn [fst snd]. split; [done|]. split; [done|]. by intros body [= <-]. }
  pose proof (get_prices_world np_sqrt random_random randbelow yf_history
                symbol range clk w) as (Hs & Hp & _).
  destruct (get_prices _ _ _ _ _ _ _ _) as [[price_response|code] w1];
    cbn [fst snd] in *.
  - split; [|split].
    + intros key Hkey. cbn [summaries set_summaries]. unfold putSummary.
      rewrite lookup_insert_ne by done. by rewrite Hs.
    + exact Hp.
    + intros body [= <-]. cbn [summaries set_summaries summary].
      unfold getSummary, putSummary. apply lookup_insert_eq.
  - split; [by rewrite Hs|]. split; [exact Hp | done].
Qed.
End generate_summary_properties.

Lemma generate_summary_frame_witness :
  let clk := mkClock 1000 20000 20000 in
  let r := generate_summary sqrt_sample random_half randbelow_zero yf_down
             summary_sample "spy" ONE_MONTH clk stored_world in
  summaries r.2 !! ("SPY", 20000, "7d") = summaries stored_world !! ("SPY", 20000, "7d")
  ∧ prices r.2 !! ("QQQ", 20000) = prices stored_world !! ("QQQ", 20000).
Proof.
  intros clk r.
  destruct (generate_summary_frame sqrt_sample random_half randbelow_zero yf_down
              summary_sample "spy" ONE_MONTH clk stored_world) as (Hs & Hp & _).
  fold r in Hs, Hp. split.
  - apply Hs. by vm_compute.
  - apply Hp. by vm_compute.
Defined.
